(** * The in-memory social store (class [MemStorage]) of ConnectApp

    A shallow embedding of the storage class [MemStorage] and of the
    properties its specification states about it.  Every method of the class
    is an [async] function without an [await] on anything but other store
    methods, so each call runs to completion on the single JavaScript thread:
    a method is modelled as a function from the store before the call to the
    result and the store after it.

    Numbers.  Ids and timestamps are JavaScript numbers that only ever hold
    small integers (a counter starting at 1, milliseconds since the epoch);
    they are modelled as [Z].  The clock ([new Date()]) is an input of every
    creating operation. *)

From stdpp Require Import base decidable option list gmap strings sorting.
From Stdlib Require Import ZArith Lia.

Open Scope Z_scope.

(** ** JavaScript [Map<number, V>]

    A [Map] iterates in insertion order; [set] on a key that is present
    replaces the value in place, [set] on a new key appends, [delete] removes
    the binding.  The collections are iterated by the store
    ([Array.from(m.values())]), so the order is part of the model: a map is
    the list of its bindings in insertion order. *)

Module JsMap.
Section jsmap.
Context {V : Type}.

Local Abbreviation t := (list (Z * V)).

Fixpoint get (k : Z) (m : t) : option V :=
  match m with
  | [] => None
  | (k', v) :: m' => if decide (k' = k) then Some v else get k m'
  end.

Fixpoint set (k : Z) (v : V) (m : t) : t :=
  match m with
  | [] => [(k, v)]
  | (k', v') :: m' =>
      if decide (k' = k) then (k, v) :: m' else (k', v') :: set k v m'
  end.

Definition delete (k : Z) (m : t) : t :=
  filter (λ kv, kv.1 ≠ k) m.

Definition values (m : t) : list V := m.*2.

Definition keys (m : t) : list Z := m.*1.
End jsmap.
End JsMap.

Abbreviation jmap V := (list (Z * V)).
Abbreviation jget := JsMap.get.
Abbreviation jset := JsMap.set.
Abbreviation jdelete := JsMap.delete.
Abbreviation jvalues := JsMap.values.
Abbreviation jkeys := JsMap.keys.

(** ** [Array.prototype.sort]

    [sort] is stable and, for a consistent comparator, its result is fixed by
    the language: the elements in comparator order, elements that compare
    equal in their original order.  Insertion from the right computes exactly
    that list.  [cmp a b < 0] puts [a] first. *)

Section js_sort.
Context {A : Type} (cmp : A → A → Z).

Fixpoint sort_insert (x : A) (l : list A) : list A :=
  match l with
  | [] => [x]
  | y :: l' => if decide (cmp x y ≤ 0) then x :: y :: l' else y :: sort_insert x l'
  end.

Definition js_sort (l : list A) : list A := foldr sort_insert [] l.
End js_sort.

(** ** Entities *)

(** The row types come from the schema module ([@shared/schema]), which the
    store imports.  Their fields are the ones the store reads and writes and
    the ones the specification lists.  A nullable column is an [option]; a
    field that a view blanks ([password: undefined]) is [None]. *)

(** Modelled from the spec: the [status] column of [Friend] in the schema
    module, one of pending, accepted, rejected. *)
Inductive FriendStatus := Pending | Accepted | Rejected.

#[global] Instance FriendStatus_eq_dec : EqDecision FriendStatus.
Proof. solve_decision. Defined.

(** Modelled from the spec: the [User] row of the schema module. *)
Record User := mkUser {
  user_id : Z;
  user_username : string;
  user_password : option string;
  user_name : string;
  user_bio : option string;
  user_profileImage : option string;
  user_coverImage : option string;
  user_coverColor : option string;
  user_work : option string;
  user_education : option string;
  user_currentCity : option string;
  user_hometown : option string;
  user_createdAt : Z;
  user_lastNameChange : option Z;
  user_isBanned : bool
}.

(** Modelled from the spec: [InsertUser] of the schema module, what
    [createUser] spreads into the new record. *)
Record InsertUser := mkInsertUser {
  iu_username : string;
  iu_password : string;
  iu_name : string;
  iu_bio : option string;
  iu_profileImage : option string;
  iu_coverImage : option string;
  iu_coverColor : option string;
  iu_work : option string;
  iu_education : option string;
  iu_currentCity : option string;
  iu_hometown : option string
}.

(** Modelled from the spec: [Partial<User>] over the [User] row of the schema
    module.  Every field may be omitted ([None]); a nullable field that is
    present may hold [null] ([Some None]). *)
Record UserUpdates := mkUserUpdates {
  upd_id : option Z;
  upd_username : option string;
  upd_password : option string;
  upd_name : option string;
  upd_bio : option (option string);
  upd_profileImage : option (option string);
  upd_coverImage : option (option string);
  upd_coverColor : option (option string);
  upd_work : option (option string);
  upd_education : option (option string);
  upd_currentCity : option (option string);
  upd_hometown : option (option string);
  upd_createdAt : option Z;
  upd_lastNameChange : option (option Z);
  upd_isBanned : option bool
}.

(** Modelled from the spec: the [Post] row of the schema module. *)
Record Post := mkPost {
  post_id : Z;
  post_userId : Z;
  post_content : string;
  post_media : option string;
  post_createdAt : Z
}.

(** Modelled from the spec: [InsertPost] of the schema module. *)
Record InsertPost := mkInsertPost {
  ip_userId : Z;
  ip_content : string;
  ip_media : option string
}.

(** Modelled from the spec: the [Like] row of the schema module. *)
Record Like := mkLike {
  like_id : Z;
  like_userId : Z;
  like_postId : Z;
  like_createdAt : Z
}.

(** Modelled from the spec: [InsertLike] of the schema module. *)
Record InsertLike := mkInsertLike {
  il_userId : Z;
  il_postId : Z
}.

(** Modelled from the spec: the [Comment] row of the schema module. *)
Record Comment := mkComment {
  comment_id : Z;
  comment_userId : Z;
  comment_postId : Z;
  comment_content : string;
  comment_createdAt : Z
}.

(** Modelled from the spec: [InsertComment] of the schema module. *)
Record InsertComment := mkInsertComment {
  ic_userId : Z;
  ic_postId : Z;
  ic_content : string
}.

(** Modelled from the spec: the [Friend] row (FriendEdge) of the schema
    module. *)
Record Friend := mkFriend {
  friend_id : Z;
  friend_userId : Z;
  friend_friendId : Z;
  friend_status : FriendStatus;
  friend_createdAt : Z
}.

(** Modelled from the spec: [InsertFriend] of the schema module; the store
    reads its optional [status] ([insertFriend.status ?? 'pending']). *)
Record InsertFriend := mkInsertFriend {
  if_userId : Z;
  if_friendId : Z;
  if_status : option FriendStatus
}.

(** [Story] is declared next to the store. *)
Record Story := mkStory {
  story_id : Z;
  story_userId : Z;
  story_media : string;
  story_createdAt : Z
}.

#[global] Instance User_eq_dec : EqDecision User.
Proof. solve_decision. Defined.
#[global] Instance Post_eq_dec : EqDecision Post.
Proof. solve_decision. Defined.
#[global] Instance Like_eq_dec : EqDecision Like.
Proof. solve_decision. Defined.
#[global] Instance Comment_eq_dec : EqDecision Comment.
Proof. solve_decision. Defined.
#[global] Instance Friend_eq_dec : EqDecision Friend.
Proof. solve_decision. Defined.
#[global] Instance Story_eq_dec : EqDecision Story.
Proof. solve_decision. Defined.

(** ** Views returned by the joining queries *)

(** Modelled from the spec: [FriendWithUser] of the schema module, an edge
    with the record [getUser] found for the other user. *)
Record FriendWithUser := mkFriendWithUser {
  fwu_friend : Friend;
  fwu_user : option User
}.

(** A comment with the record [getUser] found for its author. *)
Record CommentWithAuthor := mkCommentWithAuthor {
  cwa_comment : Comment;
  cwa_author : option User
}.

(** Modelled from the spec: [PostWithAuthor] of the schema module, with the
    fields the three queries build: [getPostsForFeed] sets
    [liked], [getPostsByUser] sets [liked] and [commentsCount],
    [getSavedPosts] sets [saved]. *)
Record PostWithAuthor := mkPostWithAuthor {
  pwa_post : Post;
  pwa_author : option User;
  pwa_likes : nat;
  pwa_liked : option bool;
  pwa_saved : option bool;
  pwa_comments : list CommentWithAuthor;
  pwa_commentsCount : option nat
}.

(** ** The store *)

Record Store := mkStore {
  users : jmap User;
  posts : jmap Post;
  likes : jmap Like;
  comments : jmap Comment;
  friends : jmap Friend;
  savedPosts : gmap Z (list Z);
  stories : jmap Story;
  currentUserId : Z;
  currentPostId : Z;
  currentLikeId : Z;
  currentCommentId : Z;
  currentFriendId : Z;
  currentStoryId : Z
}.

(** The constructor. *)
Definition empty_store : Store :=
  {| users := []; posts := []; likes := []; comments := []; friends := [];
     savedPosts := ∅; stories := [];
     currentUserId := 1; currentPostId := 1; currentLikeId := 1;
     currentCommentId := 1; currentFriendId := 1; currentStoryId := 1 |}.

Definition with_users (m : jmap User) (s : Store) : Store :=
  mkStore m (posts s) (likes s) (comments s) (friends s) (savedPosts s) (stories s)
    (currentUserId s) (currentPostId s) (currentLikeId s) (currentCommentId s)
    (currentFriendId s) (currentStoryId s).
Definition with_posts (m : jmap Post) (s : Store) : Store :=
  mkStore (users s) m (likes s) (comments s) (friends s) (savedPosts s) (stories s)
    (currentUserId s) (currentPostId s) (currentLikeId s) (currentCommentId s)
    (currentFriendId s) (currentStoryId s).
Definition with_likes (m : jmap Like) (s : Store) : Store :=
  mkStore (users s) (posts s) m (comments s) (friends s) (savedPosts s) (stories s)
    (currentUserId s) (currentPostId s) (currentLikeId s) (currentCommentId s)
    (currentFriendId s) (currentStoryId s).
Definition with_comments (m : jmap Comment) (s : Store) : Store :=
  mkStore (users s) (posts s) (likes s) m (friends s) (savedPosts s) (stories s)
    (currentUserId s) (currentPostId s) (currentLikeId s) (currentCommentId s)
    (currentFriendId s) (currentStoryId s).
Definition with_friends (m : jmap Friend) (s : Store) : Store :=
  mkStore (users s) (posts s) (likes s) (comments s) m (savedPosts s) (stories s)
    (currentUserId s) (currentPostId s) (currentLikeId s) (currentCommentId s)
    (currentFriendId s) (currentStoryId s).
Definition with_savedPosts (m : gmap Z (list Z)) (s : Store) : Store :=
  mkStore (users s) (posts s) (likes s) (comments s) (friends s) m (stories s)
    (currentUserId s) (currentPostId s) (currentLikeId s) (currentCommentId s)
    (currentFriendId s) (currentStoryId s).
Definition with_stories (m : jmap Story) (s : Store) : Store :=
  mkStore (users s) (posts s) (likes s) (comments s) (friends s) (savedPosts s) m
    (currentUserId s) (currentPostId s) (currentLikeId s) (currentCommentId s)
    (currentFriendId s) (currentStoryId s).
Definition with_currentUserId (c : Z) (s : Store) : Store :=
  mkStore (users s) (posts s) (likes s) (comments s) (friends s) (savedPosts s) (stories s)
    c (currentPostId s) (currentLikeId s) (currentCommentId s)
    (currentFriendId s) (currentStoryId s).
Definition with_currentPostId (c : Z) (s : Store) : Store :=
  mkStore (users s) (posts s) (likes s) (comments s) (friends s) (savedPosts s) (stories s)
    (currentUserId s) c (currentLikeId s) (currentCommentId s)
    (currentFriendId s) (currentStoryId s).
Definition with_currentLikeId (c : Z) (s : Store) : Store :=
  mkStore (users s) (posts s) (likes s) (comments s) (friends s) (savedPosts s) (stories s)
    (currentUserId s) (currentPostId s) c (currentCommentId s)
    (currentFriendId s) (currentStoryId s).
Definition with_currentCommentId (c : Z) (s : Store) : Store :=
  mkStore (users s) (posts s) (likes s) (comments s) (friends s) (savedPosts s) (stories s)
    (currentUserId s) (currentPostId s) (currentLikeId s) c
    (currentFriendId s) (currentStoryId s).
Definition with_currentFriendId (c : Z) (s : Store) : Store :=
  mkStore (users s) (posts s) (likes s) (comments s) (friends s) (savedPosts s) (stories s)
    (currentUserId s) (currentPostId s) (currentLikeId s) (currentCommentId s)
    c (currentStoryId s).
Definition with_currentStoryId (c : Z) (s : Store) : Store :=
  mkStore (users s) (posts s) (likes s) (comments s) (friends s) (savedPosts s) (stories s)
    (currentUserId s) (currentPostId s) (currentLikeId s) (currentCommentId s)
    (currentFriendId s) c.

(** [Array.prototype.find]: the first element that satisfies [P]. *)
Definition js_find {A} (P : A → Prop) `{!∀ x, Decision (P x)} (l : list A) : option A :=
  snd <$> list_find P l.

(** ** User methods *)

Definition getUser (id : Z) (s : Store) : option User := jget id (users s).

Definition getUserByUsername (username : string) (s : Store) : option User :=
  js_find (λ user, user_username user = username) (jvalues (users s)).

Definition createUser (insertUser : InsertUser) (now : Z) (s : Store) : User * Store :=
  let id := currentUserId s in
  let user :=
    {| user_id := id;
       user_username := iu_username insertUser;
       user_password := Some (iu_password insertUser);
       user_name := iu_name insertUser;
       user_bio := iu_bio insertUser;
       user_profileImage := iu_profileImage insertUser;
       user_coverImage := iu_coverImage insertUser;
       user_coverColor := iu_coverColor insertUser;
       user_work := iu_work insertUser;
       user_education := iu_education insertUser;
       user_currentCity := iu_currentCity insertUser;
       user_hometown := iu_hometown insertUser;
       user_createdAt := now;
       user_lastNameChange := None;
       user_isBanned := false |} in
  (user, with_users (jset id user (users s)) (with_currentUserId (id + 1) s)).

(** [updates.f !== undefined ? updates.f : user.f] *)
Definition merge_field {A} (upd : option A) (cur : A) : A :=
  match upd with Some v => v | None => cur end.

Definition updateUser (id : Z) (updates : UserUpdates) (s : Store)
  : option User * Store :=
  match getUser id s with
  | None => (None, s)
  | Some user =>
      let updatedUser :=
        {| user_id := user_id user;
           user_username := user_username user;
           user_password := user_password user;
           user_name := merge_field (upd_name updates) (user_name user);
           user_bio := merge_field (upd_bio updates) (user_bio user);
           user_profileImage :=
             merge_field (upd_profileImage updates) (user_profileImage user);
           user_coverImage := merge_field (upd_coverImage updates) (user_coverImage user);
           user_coverColor := merge_field (upd_coverColor updates) (user_coverColor user);
           user_work := merge_field (upd_work updates) (user_work user);
           user_education := merge_field (upd_education updates) (user_education user);
           user_currentCity :=
             merge_field (upd_currentCity updates) (user_currentCity user);
           user_hometown := merge_field (upd_hometown updates) (user_hometown user);
           user_createdAt := user_createdAt user;
           user_lastNameChange := user_lastNameChange user;
           user_isBanned := user_isBanned user |} in
      (Some updatedUser, with_users (jset id updatedUser (users s)) s)
  end.

Definition toggleUserBanStatus (userId : Z) (s : Store) : option User * Store :=
  match getUser userId s with
  | None => (None, s)
  | Some user =>
      let updatedUser :=
        {| user_id := user_id user;
           user_username := user_username user;
           user_password := user_password user;
           user_name := user_name user;
           user_bio := user_bio user;
           user_profileImage := user_profileImage user;
           user_coverImage := user_coverImage user;
           user_coverColor := user_coverColor user;
           user_work := user_work user;
           user_education := user_education user;
           user_currentCity := user_currentCity user;
           user_hometown := user_hometown user;
           user_createdAt := user_createdAt user;
           user_lastNameChange := user_lastNameChange user;
           user_isBanned := negb (user_isBanned user) |} in
      (Some updatedUser, with_users (jset userId updatedUser (users s)) s)
  end.

(** [{...author, password: undefined}].  Where [getUser] finds no author the
    view holds no author record ([None]). *)
Definition blank_password (user : User) : User :=
  {| user_id := user_id user;
     user_username := user_username user;
     user_password := None;
     user_name := user_name user;
     user_bio := user_bio user;
     user_profileImage := user_profileImage user;
     user_coverImage := user_coverImage user;
     user_coverColor := user_coverColor user;
     user_work := user_work user;
     user_education := user_education user;
     user_currentCity := user_currentCity user;
     user_hometown := user_hometown user;
     user_createdAt := user_createdAt user;
     user_lastNameChange := user_lastNameChange user;
     user_isBanned := user_isBanned user |}.

(** ** Likes and comments *)

Definition createLike (insertLike : InsertLike) (now : Z) (s : Store) : Like * Store :=
  let id := currentLikeId s in
  let like :=
    {| like_id := id; like_userId := il_userId insertLike;
       like_postId := il_postId insertLike; like_createdAt := now |} in
  (like, with_likes (jset id like (likes s)) (with_currentLikeId (id + 1) s)).

Definition getLike (userId postId : Z) (s : Store) : option Like :=
  js_find (λ like, like_userId like = userId ∧ like_postId like = postId)
    (jvalues (likes s)).

Definition removeLike (userId postId : Z) (s : Store) : Store :=
  match getLike userId postId s with
  | Some like => with_likes (jdelete (like_id like) (likes s)) s
  | None => s
  end.

Definition getLikesByPost (postId : Z) (s : Store) : list Like :=
  filter (λ like, like_postId like = postId) (jvalues (likes s)).

Definition createComment (insertComment : InsertComment) (now : Z) (s : Store)
  : Comment * Store :=
  let id := currentCommentId s in
  let comment :=
    {| comment_id := id; comment_userId := ic_userId insertComment;
       comment_postId := ic_postId insertComment;
       comment_content := ic_content insertComment; comment_createdAt := now |} in
  (comment,
   with_comments (jset id comment (comments s)) (with_currentCommentId (id + 1) s)).

Definition getCommentsByPost (postId : Z) (s : Store) : list Comment :=
  js_sort (λ a b, comment_createdAt a - comment_createdAt b)
    (filter (λ comment, comment_postId comment = postId) (jvalues (comments s))).

(** ** Post methods *)

Definition createPost (insertPost : InsertPost) (now : Z) (s : Store) : Post * Store :=
  let id := currentPostId s in
  let post :=
    {| post_id := id; post_userId := ip_userId insertPost;
       post_content := ip_content insertPost; post_media := ip_media insertPost;
       post_createdAt := now |} in
  (post, with_posts (jset id post (posts s)) (with_currentPostId (id + 1) s)).

Definition getPost (id : Z) (s : Store) : option Post := jget id (posts s).

Definition getPosts (s : Store) : list Post :=
  js_sort (λ a b, post_createdAt b - post_createdAt a) (jvalues (posts s)).

Definition getPostsByUser (userId : Z) (s : Store) : list PostWithAuthor :=
  let userPosts :=
    js_sort (λ a b, post_createdAt b - post_createdAt a)
      (filter (λ post, post_userId post = userId) (jvalues (posts s))) in
  (λ post,
     let author := getUser (post_userId post) s in
     let postLikes := getLikesByPost (post_id post) s in
     let postComments := getCommentsByPost (post_id post) s in
     let userLiked := bool_decide (Exists (λ like, like_userId like = userId) postLikes) in
     {| pwa_post := post;
        pwa_author := blank_password <$> author;
        pwa_likes := length postLikes;
        pwa_liked := Some userLiked;
        pwa_saved := None;
        pwa_comments :=
          (λ comment,
             {| cwa_comment := comment;
                cwa_author := blank_password <$> getUser (comment_userId comment) s |})
            <$> postComments;
        pwa_commentsCount := Some (length postComments) |}) <$> userPosts.

Definition updatePost (id : Z) (content : string) (s : Store) : option Post * Store :=
  match getPost id s with
  | None => (None, s)
  | Some post =>
      let updatedPost :=
        {| post_id := post_id post; post_userId := post_userId post;
           post_content := content; post_media := post_media post;
           post_createdAt := post_createdAt post |} in
      (Some updatedPost, with_posts (jset id updatedPost (posts s)) s)
  end.

(** The two loops of [deletePost] and the three of [deleteUser] walk a
    snapshot ([Array.from]) of a collection and delete, by id, the entries
    that match. *)
Definition delete_matching {V} (idf : V → Z) (P : V → Prop) `{!∀ v, Decision (P v)}
    (snapshot : list V) (m : jmap V) : jmap V :=
  foldl (λ acc v, if decide (P v) then jdelete (idf v) acc else acc) m snapshot.

Definition deletePost (id : Z) (s : Store) : bool * Store :=
  match getPost id s with
  | None => (false, s)
  | Some _ =>
      let s := with_posts (jdelete id (posts s)) s in
      let allLikes := jvalues (likes s) in
      let s :=
        with_likes
          (delete_matching like_id (λ like, like_postId like = id) allLikes (likes s)) s in
      let allComments := jvalues (comments s) in
      let s :=
        with_comments
          (delete_matching comment_id (λ comment, comment_postId comment = id)
             allComments (comments s)) s in
      (true, s)
  end.

Definition deleteUser (id : Z) (s : Store) : bool * Store :=
  match getUser id s with
  | None => (false, s)
  | Some _ =>
      let s := with_users (jdelete id (users s)) s in
      let userPosts := getPostsByUser id s in
      let s := foldl (λ st post, (deletePost (post_id (pwa_post post)) st).2) s userPosts in
      let allLikes := jvalues (likes s) in
      let s :=
        with_likes
          (delete_matching like_id (λ like, like_userId like = id) allLikes (likes s)) s in
      let allComments := jvalues (comments s) in
      let s :=
        with_comments
          (delete_matching comment_id (λ comment, comment_userId comment = id)
             allComments (comments s)) s in
      let allFriends := jvalues (friends s) in
      let s :=
        with_friends
          (delete_matching friend_id
             (λ friend, friend_userId friend = id ∨ friend_friendId friend = id)
             allFriends (friends s)) s in
      (true, s)
  end.

(** ** Friend methods *)

Definition createFriendRequest (insertFriend : InsertFriend) (now : Z) (s : Store)
  : Friend * Store :=
  let id := currentFriendId s in
  let friend :=
    {| friend_id := id;
       friend_userId := if_userId insertFriend;
       friend_friendId := if_friendId insertFriend;
       friend_status := default Pending (if_status insertFriend);
       friend_createdAt := now |} in
  (friend, with_friends (jset id friend (friends s)) (with_currentFriendId (id + 1) s)).

Definition set_status (status : FriendStatus) (friend : Friend) : Friend :=
  {| friend_id := friend_id friend;
     friend_userId := friend_userId friend;
     friend_friendId := friend_friendId friend;
     friend_status := status;
     friend_createdAt := friend_createdAt friend |}.

Definition acceptFriendRequest (id : Z) (s : Store) : option Friend * Store :=
  match jget id (friends s) with
  | Some friend =>
      let updatedFriend := set_status Accepted friend in
      (Some updatedFriend, with_friends (jset id updatedFriend (friends s)) s)
  | None => (None, s)
  end.

Definition rejectFriendRequest (id : Z) (s : Store) : option Friend * Store :=
  match jget id (friends s) with
  | Some friend =>
      let updatedFriend := set_status Rejected friend in
      (Some updatedFriend, with_friends (jset id updatedFriend (friends s)) s)
  | None => (None, s)
  end.

Definition getFriendRequest (userId friendId : Z) (s : Store) : option Friend :=
  js_find
    (λ friend,
       (friend_userId friend = userId ∧ friend_friendId friend = friendId) ∨
       (friend_userId friend = friendId ∧ friend_friendId friend = userId))
    (jvalues (friends s)).

Definition getFriendRequestsForUser (userId : Z) (s : Store) : list FriendWithUser :=
  let requests :=
    filter (λ friend, friend_friendId friend = userId ∧ friend_status friend = Pending)
      (jvalues (friends s)) in
  (λ request,
     {| fwu_friend := request; fwu_user := getUser (friend_userId request) s |})
    <$> requests.

Definition getFriends (userId : Z) (s : Store) : list FriendWithUser :=
  let friendConnections :=
    filter
      (λ friend,
         friend_status friend = Accepted ∧
         (friend_userId friend = userId ∨ friend_friendId friend = userId))
      (jvalues (friends s)) in
  (λ connection,
     let friendUserId :=
       if decide (friend_userId connection = userId)
       then friend_friendId connection else friend_userId connection in
     {| fwu_friend := connection; fwu_user := getUser friendUserId s |})
    <$> friendConnections.

(** [friendIds] is a JavaScript [Set]; [slice(0,5)] keeps the first five. *)
Definition getFriendSuggestions (userId : Z) (s : Store) : list User :=
  let allUsers := jvalues (users s) in
  let friends := getFriends userId s in
  let friendIds : gset Z :=
    list_to_set
      ((λ f, if decide (friend_friendId (fwu_friend f) = userId)
             then friend_userId (fwu_friend f) else friend_friendId (fwu_friend f))
         <$> friends) in
  let friendIds := friendIds ∪ {[ userId ]} in
  let suggestions := filter (λ user, user_id user ∉ friendIds) allUsers in
  take 5 suggestions.

(** ** Feed *)

Definition getPostsForFeed (userId : Z) (s : Store) : list PostWithAuthor :=
  let userFriends := getFriends userId s in
  let friendIds :=
    (λ friend, if decide (friend_userId (fwu_friend friend) = userId)
               then friend_friendId (fwu_friend friend)
               else friend_userId (fwu_friend friend)) <$> userFriends in
  let friendIds := friendIds ++ [userId] in
  let feedPosts :=
    js_sort (λ a b, post_createdAt b - post_createdAt a)
      (filter (λ post, post_userId post ∈ friendIds) (jvalues (posts s))) in
  (λ post,
     let author := getUser (post_userId post) s in
     let postLikes := getLikesByPost (post_id post) s in
     let postComments := getCommentsByPost (post_id post) s in
     let commentsWithAuthor :=
       (λ comment,
          {| cwa_comment := comment; cwa_author := getUser (comment_userId comment) s |})
         <$> postComments in
     let userLike := getLike userId (post_id post) s in
     {| pwa_post := post;
        pwa_author := author;
        pwa_likes := length postLikes;
        pwa_liked := Some (bool_decide (is_Some userLike));
        pwa_saved := None;
        pwa_comments := commentsWithAuthor;
        pwa_commentsCount := None |}) <$> feedPosts.

(** ** Saved posts and stories *)

Definition savePost (userId postId : Z) (s : Store) : Store :=
  let saved := default [] (savedPosts s !! userId) in
  if decide (postId ∈ saved)
  then s
  else with_savedPosts (<[userId := saved ++ [postId]]> (savedPosts s)) s.

Definition unsavePost (userId postId : Z) (s : Store) : Store :=
  match savedPosts s !! userId with
  | Some saved =>
      with_savedPosts (<[userId := filter (λ id, id ≠ postId) saved]> (savedPosts s)) s
  | None => s
  end.

(** [posts.filter(p => p !== null)] *)
Definition drop_nulls {A} (l : list (option A)) : list A := omap id l.

Definition getSavedPosts (userId : Z) (s : Store) : list PostWithAuthor :=
  let savedPostIds := default [] (savedPosts s !! userId) in
  let posts :=
    (λ postId,
       match getPost postId s with
       | None => None
       | Some post =>
           let author := getUser (post_userId post) s in
           let postComments := getCommentsByPost postId s in
           let commentsWithAuthor :=
             (λ comment,
                {| cwa_comment := comment;
                   cwa_author := getUser (comment_userId comment) s |})
               <$> postComments in
           Some {| pwa_post := post;
                   pwa_author := author;
                   pwa_likes := length (getLikesByPost postId s);
                   pwa_liked := None;
                   pwa_saved := Some true;
                   pwa_comments := commentsWithAuthor;
                   pwa_commentsCount := None |}
       end) <$> savedPostIds in
  drop_nulls posts.

Definition createStory (userId : Z) (media : string) (now : Z) (s : Store)
  : Story * Store :=
  let id := currentStoryId s in
  let story :=
    {| story_id := id; story_userId := userId; story_media := media;
       story_createdAt := now |} in
  (story, with_stories (jset id story (stories s)) (with_currentStoryId (id + 1) s)).

Definition getStories (userId : Z) (now : Z) (s : Store) : list Story :=
  let userFriends := getFriends userId s in
  let friendIds :=
    (λ friend, if decide (friend_userId (fwu_friend friend) = userId)
               then friend_friendId (fwu_friend friend)
               else friend_userId (fwu_friend friend)) <$> userFriends in
  let friendIds := friendIds ++ [userId] in
  let twentyFourHoursAgo := now - 24 * 60 * 60 * 1000 in
  js_sort (λ a b, story_createdAt b - story_createdAt a)
    (filter
       (λ story, story_userId story ∈ friendIds ∧ twentyFourHoursAgo < story_createdAt story)
       (jvalues (stories s))).

(** ** Histories of the store

    The mutating methods as commands, so that the states the store can be in
    are the ones a sequence of calls produces from the constructor. *)

Inductive Op :=
| OCreateUser (insertUser : InsertUser) (now : Z)
| OUpdateUser (id : Z) (updates : UserUpdates)
| ODeleteUser (id : Z)
| OToggleUserBanStatus (id : Z)
| OCreatePost (insertPost : InsertPost) (now : Z)
| OUpdatePost (id : Z) (content : string)
| ODeletePost (id : Z)
| OCreateLike (insertLike : InsertLike) (now : Z)
| ORemoveLike (userId postId : Z)
| OCreateComment (insertComment : InsertComment) (now : Z)
| OCreateFriendRequest (insertFriend : InsertFriend) (now : Z)
| OAcceptFriendRequest (id : Z)
| ORejectFriendRequest (id : Z)
| OSavePost (userId postId : Z)
| OUnsavePost (userId postId : Z)
| OCreateStory (userId : Z) (media : string) (now : Z).

Definition exec (s : Store) (op : Op) : Store :=
  match op with
  | OCreateUser i now => (createUser i now s).2
  | OUpdateUser id u => (updateUser id u s).2
  | ODeleteUser id => (deleteUser id s).2
  | OToggleUserBanStatus id => (toggleUserBanStatus id s).2
  | OCreatePost i now => (createPost i now s).2
  | OUpdatePost id c => (updatePost id c s).2
  | ODeletePost id => (deletePost id s).2
  | OCreateLike i now => (createLike i now s).2
  | ORemoveLike u p => removeLike u p s
  | OCreateComment i now => (createComment i now s).2
  | OCreateFriendRequest i now => (createFriendRequest i now s).2
  | OAcceptFriendRequest id => (acceptFriendRequest id s).2
  | ORejectFriendRequest id => (rejectFriendRequest id s).2
  | OSavePost u p => savePost u p s
  | OUnsavePost u p => unsavePost u p s
  | OCreateStory u m now => (createStory u m now s).2
  end.

Definition run (ops : list Op) (s : Store) : Store := foldl exec s ops.

Definition reachable (s : Store) : Prop := ∃ ops, s = run ops empty_store.

(** ** Well-formed stores

    In every collection the keys are strictly increasing in iteration order
    (ids are handed out by a counter and a deleted id is never reused), each
    record is stored under its own id, and every id is below the counter. *)

Definition map_wf {V} (idf : V → Z) (next : Z) (m : jmap V) : Prop :=
  StronglySorted Z.lt (jkeys m) ∧ Forall (λ kv, idf kv.2 = kv.1 ∧ kv.1 < next) m.

Definition store_wf (s : Store) : Prop :=
  map_wf user_id (currentUserId s) (users s) ∧
  map_wf post_id (currentPostId s) (posts s) ∧
  map_wf like_id (currentLikeId s) (likes s) ∧
  map_wf comment_id (currentCommentId s) (comments s) ∧
  map_wf friend_id (currentFriendId s) (friends s) ∧
  map_wf story_id (currentStoryId s) (stories s).

#[global] Instance map_wf_dec {V} (idf : V → Z) next m : Decision (map_wf idf next m).
Proof. unfold map_wf. apply _. Defined.

#[global] Instance store_wf_dec s : Decision (store_wf s).
Proof. unfold store_wf. apply _. Defined.

(** ** Predicates the properties are stated with *)

(** [a] may stand before [b] in a list sorted with [cmp]: [a] is not greater,
    and among equals the one that was first ([before]) stays first. *)
Definition sorted_stable {A} (cmp : A → A → Z) (before : A → A → Prop) (a b : A) : Prop :=
  cmp a b ≤ 0 ∧ (cmp b a ≤ 0 → before a b).

(** [f] is an edge between [u] and [v], in either direction. *)
Definition joins (u v : Z) (f : Friend) : Prop :=
  (friend_userId f = u ∧ friend_friendId f = v) ∨
  (friend_userId f = v ∧ friend_friendId f = u).

(** Some edge, in any state, exists between [u] and [v]. *)
Definition has_edge (s : Store) (u v : Z) : Prop :=
  Exists (joins u v) (jvalues (friends s)).

(** An accepted edge exists between [u] and [v]. *)
Definition are_friends (s : Store) (u v : Z) : Prop :=
  Exists (λ f, friend_status f = Accepted ∧ joins u v f) (jvalues (friends s)).

#[global] Instance joins_dec u v f : Decision (joins u v f).
Proof. unfold joins. apply _. Defined.
#[global] Instance has_edge_dec s u v : Decision (has_edge s u v).
Proof. unfold has_edge. apply _. Defined.
#[global] Instance are_friends_dec s u v : Decision (are_friends s u v).
Proof. unfold are_friends. apply _. Defined.

(** The Like records the store holds for the pair [(u, p)]. *)
Definition likes_of (u p : Z) (s : Store) : list Like :=
  filter (λ like, like_userId like = u ∧ like_postId like = p) (jvalues (likes s)).

(** The ids of the posts of [u], as [deleteUser] walks them. *)
Definition post_ids_of (u : Z) (s : Store) : list Z :=
  (λ post, post_id (pwa_post post)) <$> getPostsByUser u s.

(** The part of the store outside the five collections [deleteUser] works
    on: the stories, the saved posts and the six counters. *)
Definition untouched (s : Store) : jmap Story * gmap Z (list Z) * (Z * Z * Z * Z * Z * Z) :=
  (stories s, savedPosts s,
   (currentUserId s, currentPostId s, currentLikeId s, currentCommentId s,
    currentFriendId s, currentStoryId s)).

(** The saved post ids of [u], in the order of saving
    ([this.savedPosts.get(userId) || []]). *)
Definition saved_of (u : Z) (s : Store) : list Z := default [] (savedPosts s !! u).

(** ** Route handlers

    The handlers of the routes module that guard a store operation, each as
    the function its body computes once the session middleware has let the
    request through: from the id of the session user, the route parameter
    ([parseInt] of an id) and the store, to the HTTP status, what the JSON
    answer carries, and the store afterwards.  [res.json] without [status]
    answers 200. *)

(** Modelled from the spec: [insertLikeSchema.parse] of the schema module,
    which hands the two numbers on as the Like to insert. *)
Definition parse_like (userId postId : Z) : InsertLike := mkInsertLike userId postId.

(** Modelled from the spec: [insertFriendSchema.parse] of the schema module,
    which hands the two ids and the status on as the edge to insert. *)
Definition parse_friend (userId friendId : Z) (status : FriendStatus) : InsertFriend :=
  mkInsertFriend userId friendId (Some status).

(** [POST /api/posts/:postId/like] *)
Definition route_like (userId postId now : Z) (s : Store)
  : Z * option (Like * nat) * Store :=
  match getPost postId s with
  | None => (404, None, s)
  | Some _ =>
      match getLike userId postId s with
      | Some _ => (400, None, s)
      | None =>
          let likeData := parse_like userId postId in
          let (like, s) := createLike likeData now s in
          let likes := getLikesByPost postId s in
          (201, Some (like, length likes), s)
      end
  end.

(** [DELETE /api/posts/:postId/like] *)
Definition route_unlike (userId postId : Z) (s : Store) : Z * option nat * Store :=
  match getPost postId s with
  | None => (404, None, s)
  | Some _ =>
      let s := removeLike userId postId s in
      let likes := getLikesByPost postId s in
      (200, Some (length likes), s)
  end.

(** [POST /api/friends/request] *)
Definition route_friend_request (userId friendId now : Z) (s : Store)
  : Z * option Friend * Store :=
  if decide (userId = friendId) then (400, None, s)
  else
    match getUser friendId s with
    | None => (404, None, s)
    | Some _ =>
        match getFriendRequest userId friendId s with
        | Some _ => (400, None, s)
        | None =>
            let friendData := parse_friend userId friendId Pending in
            let (friendRequest, s) := createFriendRequest friendData now s in
            (201, Some friendRequest, s)
        end
    end.

(** [DELETE /api/posts/:postId] *)
Definition route_delete_post (userId postId : Z) (s : Store) : Z * Store :=
  match getPost postId s with
  | None => (404, s)
  | Some post =>
      if decide (post_userId post ≠ userId) then (403, s)
      else (200, (deletePost postId s).2)
  end.

(** [PUT /api/posts/:postId] *)
Definition route_update_post (userId postId : Z) (content : string) (s : Store)
  : Z * option Post * Store :=
  match getPost postId s with
  | None => (404, None, s)
  | Some post =>
      if decide (post_userId post ≠ userId) then (403, None, s)
      else
        let (updatedPost, s) := updatePost postId content s in
        (200, updatedPost, s)
  end.

(** [DELETE /api/admin/users/:userId] *)
Definition route_admin_delete_user (userId : Z) (s : Store) : Z * Store :=
  if decide (userId = 1) then (400, s)
  else
    let (success, s) := deleteUser userId s in
    if success then (200, s) else (404, s).

(** [PUT /api/admin/users/:userId/ban]; the answer is the user without the
    password. *)
Definition route_admin_ban (userId : Z) (s : Store) : Z * option User * Store :=
  if decide (userId = 1) then (400, None, s)
  else
    let (updatedUser, s) := toggleUserBanStatus userId s in
    match updatedUser with
    | None => (404, None, s)
    | Some updatedUser => (200, Some (blank_password updatedUser), s)
    end.

(** The JSON body of [PUT /api/user/profile], as the handler destructures it:
    a field is absent ([undefined], [None]) or present; [name], when
    present, is a string, the other fields may be [null]. *)
Record ProfileBody := mkProfileBody {
  pb_name : option string;
  pb_bio : option (option string);
  pb_work : option (option string);
  pb_education : option (option string);
  pb_currentCity : option (option string);
  pb_hometown : option (option string);
  pb_profileImage : option (option string);
  pb_coverImage : option (option string)
}.

(** [currentUser.lastNameChange = new Date()]: [currentUser] is the object
    the collection holds under the id ([getUser] returns it, not a copy), so
    the assignment changes the stored record, in its place. *)
Definition stamp_name_change (userId now : Z) (currentUser : User) (s : Store) : Store :=
  with_users
    (jset userId
       {| user_id := user_id currentUser;
          user_username := user_username currentUser;
          user_password := user_password currentUser;
          user_name := user_name currentUser;
          user_bio := user_bio currentUser;
          user_profileImage := user_profileImage currentUser;
          user_coverImage := user_coverImage currentUser;
          user_coverColor := user_coverColor currentUser;
          user_work := user_work currentUser;
          user_education := user_education currentUser;
          user_currentCity := user_currentCity currentUser;
          user_hometown := user_hometown currentUser;
          user_createdAt := user_createdAt currentUser;
          user_lastNameChange := Some now;
          user_isBanned := user_isBanned currentUser |}
       (users s)) s.

(** The update the profile route passes to [updateUser]. *)
Definition profile_updates (body : ProfileBody) (lastNameChange : option Z) : UserUpdates :=
  {| upd_id := None; upd_username := None; upd_password := None;
     upd_name := pb_name body;
     upd_bio := pb_bio body;
     upd_profileImage := pb_profileImage body;
     upd_coverImage := pb_coverImage body;
     upd_coverColor := None;
     upd_work := pb_work body;
     upd_education := pb_education body;
     upd_currentCity := pb_currentCity body;
     upd_hometown := pb_hometown body;
     upd_createdAt := None;
     upd_lastNameChange := Some lastNameChange;
     upd_isBanned := None |}.

(** [PUT /api/user/profile].  The clock is read twice: [now_check] for
    [Date.now()] in the cooldown, [now_set] for the [new Date()] that is
    recorded.  [name && name !== currentUser.name] holds for a name that is
    present, not empty and different from the stored one. *)
Definition route_update_profile (userId : Z) (body : ProfileBody) (now_check now_set : Z)
    (s : Store) : Z * option User * Store :=
  match getUser userId s with
  | None => (404, None, s)
  | Some currentUser =>
      let finish (lastNameChange : option Z) (s : Store) :=
        let (updatedUser, s) := updateUser userId (profile_updates body lastNameChange) s in
        match updatedUser with
        | None => (404, None, s)
        | Some updatedUser => (200, Some (blank_password updatedUser), s)
        end in
      let name_changes :=
        match pb_name body with
        | Some name => bool_decide (name ≠ EmptyString ∧ name ≠ user_name currentUser)
        | None => false
        end in
      if name_changes then
        let in_cooldown :=
          match user_lastNameChange currentUser with
          | Some last => bool_decide ((now_check - last) `div` (1000 * 60 * 60 * 24) < 15)
          | None => false
          end in
        if in_cooldown then (400, None, s)
        else finish (Some now_set) (stamp_name_change userId now_set currentUser s)
      else finish (user_lastNameChange currentUser) s
  end.

(** Calls that reach the store: the two routes that check before they
    insert, and any operation of the store called directly. *)
Inductive Call :=
| CLike (userId postId now : Z)
| CFriendRequest (userId friendId now : Z)
| CStore (op : Op).

Definition call (s : Store) (c : Call) : Store :=
  match c with
  | CLike userId postId now => (route_like userId postId now s).2
  | CFriendRequest userId friendId now => (route_friend_request userId friendId now s).2
  | CStore op => exec s op
  end.

(** The edges between [a] and [b], in either direction. *)
Definition edges_between (a b : Z) (s : Store) : list Friend :=
  filter (joins a b) (jvalues (friends s)).

(** ** Stores the properties are tried on *)

Definition demo_alice : InsertUser :=
  mkInsertUser "alice" "secret" "Alice" None None None None None None None None.
Definition demo_bob : InsertUser :=
  mkInsertUser "bob" "secret" "Bob" None None None None None None None None.

(** Alice (1) has sent Bob (2) a request that is still pending. *)
Definition pending_store : Store :=
  run [OCreateUser demo_alice 10; OCreateUser demo_bob 20;
       OCreateFriendRequest (mkInsertFriend 1 2 (Some Pending)) 30] empty_store.

(** Somebody has liked post 1 once already. *)
Definition liked_store : Store := run [OCreateLike (mkInsertLike 1 1) 10] empty_store.

(** Alice has written two posts within the same millisecond. *)
Definition tie_store : Store :=
  run [OCreateUser demo_alice 10;
       OCreatePost (mkInsertPost 1 "first" None) 100;
       OCreatePost (mkInsertPost 1 "second" None) 100] empty_store.

(** Alice's post 1 carries two likes and two comments; Bob's post 2 carries
    a like and a comment of Alice; an accepted edge joins the two. *)
Definition busy_store : Store :=
  run [OCreateUser demo_alice 10; OCreateUser demo_bob 20;
       OCreatePost (mkInsertPost 1 "hello" None) 100;
       OCreatePost (mkInsertPost 2 "world" None) 110;
       OCreateLike (mkInsertLike 2 1) 120;
       OCreateLike (mkInsertLike 1 1) 130;
       OCreateLike (mkInsertLike 1 2) 140;
       OCreateComment (mkInsertComment 2 1 "hi") 150;
       OCreateComment (mkInsertComment 1 1 "thanks") 160;
       OCreateComment (mkInsertComment 1 2 "nice") 170;
       OCreateFriendRequest (mkInsertFriend 2 1 (Some Pending)) 180;
       OAcceptFriendRequest 1;
       OCreateStory 1 "sunset.png" 190;
       OSavePost 1 2; OSavePost 1 1; OSavePost 2 1] empty_store.

(** Bob's request to Alice has been accepted (edge 1). *)
Definition accepted_store : Store :=
  run [OCreateUser demo_alice 10; OCreateUser demo_bob 20;
       OCreateFriendRequest (mkInsertFriend 2 1 (Some Pending)) 30;
       OAcceptFriendRequest 1] empty_store.

(** Alice's request to Bob (edge 1) has been rejected. *)
Definition rejected_store : Store :=
  run [OCreateUser demo_alice 10; OCreateUser demo_bob 20;
       OCreateFriendRequest (mkInsertFriend 1 2 (Some Pending)) 30;
       ORejectFriendRequest 1] empty_store.

(** Bob's post 2, which Alice had saved first, has been deleted. *)
Definition saved_store : Store := exec busy_store (ODeletePost 2).

(** A profile request that names a new name and nothing else. *)
Definition rename_body (name : string) : ProfileBody :=
  mkProfileBody (Some name) None None None None None None None.

(** Alice has renamed herself at time 1000. *)
Definition renamed_store : Store :=
  (route_update_profile 1 (rename_body "Alicia") 1000 1000 pending_store).2.

(** * Properties *)

(** ** The map model *)

Lemma filter_Forall_id {A} (P : A → Prop) `{!∀ x, Decision (P x)} (l : list A) :
  Forall P l → filter P l = l.
Proof.
  induction 1 as [|x l Hx Hl IH]; [done|].
  by rewrite filter_cons_True, IH.
Qed.

Lemma filter_ext_elem {A} (P Q : A → Prop)
    `{!∀ x, Decision (P x), !∀ x, Decision (Q x)} (l : list A) :
  (∀ x, x ∈ l → P x ↔ Q x) → filter P l = filter Q l.
Proof.
  induction l as [|x l IH]; intros Heq; [done|].
  rewrite !filter_cons.
  rewrite IH by (intros y Hy; apply Heq; by apply list_elem_of_further).
  apply decide_ext, Heq, list_elem_of_here.
Qed.

Section jsmap_facts.
Context {V : Type}.
Implicit Types (m : jmap V) (k : Z) (v : V).

Lemma jget_set_eq k v m : jget k (jset k v m) = Some v.
Proof.
  induction m as [|[k' v'] m IH]; simpl.
  - by rewrite decide_True.
  - destruct (decide (k' = k)) as [->|Hne]; simpl.
    + by rewrite decide_True.
    + by rewrite decide_False.
Qed.

Lemma jget_set_ne k k' v m : k ≠ k' → jget k' (jset k v m) = jget k' m.
Proof.
  intros Hne. induction m as [|[k0 v0] m IH]; simpl.
  - by rewrite decide_False.
  - destruct (decide (k0 = k)) as [->|Hne0]; simpl.
    + by rewrite !decide_False.
    + by rewrite IH.
Qed.

Lemma jget_delete_eq k m : jget k (jdelete k m) = None.
Proof.
  unfold jdelete. induction m as [|[k' v'] m IH]; [done|].
  rewrite filter_cons. simpl. destruct (decide (k' ≠ k)); simpl; [|done].
  by rewrite decide_False.
Qed.

Lemma jget_delete_ne k k' m : k ≠ k' → jget k' (jdelete k m) = jget k' m.
Proof.
  intros Hne. unfold jdelete. induction m as [|[k0 v0] m IH]; [done|].
  rewrite filter_cons. simpl. destruct (decide (k0 ≠ k)) as [?|Heq]; simpl.
  - by rewrite IH.
  - apply dec_stable in Heq as ->. by rewrite decide_False.
Qed.

Lemma jget_Some_elem k v m : jget k m = Some v → (k, v) ∈ m.
Proof.
  induction m as [|[k' v'] m IH]; simpl; [done|].
  destruct (decide (k' = k)) as [->|?].
  - intros Hv. injection Hv as ->. apply list_elem_of_here.
  - intros ?. apply list_elem_of_further. auto.
Qed.

Lemma jget_None_keys k m : jget k m = None ↔ k ∉ jkeys m.
Proof.
  unfold jkeys. induction m as [|[k' v'] m IH]; simpl.
  - split; [intros _; apply not_elem_of_nil|done].
  - rewrite not_elem_of_cons. destruct (decide (k' = k)) as [->|?].
    + split; [done|]. by intros [? _].
    + rewrite IH. split; [intros ?; split; [by intros ->|done]|by intros [_ ?]].
Qed.

Lemma jget_elem_NoDup k v m : NoDup (jkeys m) → (k, v) ∈ m → jget k m = Some v.
Proof.
  unfold jkeys. induction m as [|[k' v'] m IH]; simpl.
  - intros _ ?%elem_of_nil. done.
  - rewrite NoDup_cons. intros [Hk' Hnd] [Heq|Hin]%elem_of_cons.
    + injection Heq as -> ->. by rewrite decide_True.
    + destruct (decide (k' = k)) as [->|?]; [|by apply IH].
      exfalso. apply Hk'. apply (list_elem_of_fmap_2 fst) in Hin. done.
Qed.

Lemma jset_fresh k v m : k ∉ jkeys m → jset k v m = m ++ [(k, v)].
Proof.
  unfold jkeys. induction m as [|[k' v'] m IH]; simpl; [done|].
  rewrite not_elem_of_cons. intros [Hne Hnin].
  rewrite decide_False by done. by rewrite IH.
Qed.

Lemma jkeys_set_present k v m : k ∈ jkeys m → jkeys (jset k v m) = jkeys m.
Proof.
  unfold jkeys. induction m as [|[k' v'] m IH]; simpl.
  - by intros ?%elem_of_nil.
  - destruct (decide (k' = k)) as [->|Hne]; simpl; [done|].
    intros [?|Hin]%elem_of_cons; [congruence|]. f_equal. by apply IH.
Qed.


Lemma Forall_jset (Q : Z * V → Prop) k v m :
  Forall Q m → Q (k, v) → Forall Q (jset k v m).
Proof.
  intros Hm Hkv. induction Hm as [|[k' v'] m Hx Hm IH]; simpl.
  - by apply Forall_singleton.
  - destruct (decide (k' = k)); by apply Forall_cons.
Qed.

Lemma elem_of_NoDup_keys (kv kv' : Z * V) m :
  NoDup (jkeys m) → kv ∈ m → kv' ∈ m → kv.1 = kv'.1 → kv = kv'.
Proof.
  intros Hnd Hin Hin' Heq. destruct kv as [k v], kv' as [k' v']. simpl in Heq.
  subst k'. f_equal.
  apply (jget_elem_NoDup _ _ _ Hnd) in Hin, Hin'. congruence.
Qed.

Context (idf : V → Z).

Lemma map_wf_NoDup next m : map_wf idf next m → NoDup (jkeys m).
Proof.
  intros [Hs _]. induction Hs as [|k ks Hs IH Hk]; [apply NoDup_nil_2|].
  apply NoDup_cons. split; [|done].
  intros Hin. rewrite Forall_forall in Hk. specialize (Hk _ Hin). lia.
Qed.

Lemma map_wf_elem next m kv :
  map_wf idf next m → kv ∈ m → idf kv.2 = kv.1 ∧ kv.1 < next.
Proof. intros [_ Hf] Hin. rewrite Forall_forall in Hf. auto. Qed.

Lemma map_wf_get next m k v :
  map_wf idf next m → jget k m = Some v → idf v = k ∧ k < next.
Proof. intros Hwf Hget%jget_Some_elem. apply (map_wf_elem _ _ _ Hwf Hget). Qed.

Lemma map_wf_mono next next' m :
  next ≤ next' → map_wf idf next m → map_wf idf next' m.
Proof.
  intros Hle [Hs Hf]. split; [done|].
  eapply Forall_impl; [exact Hf|]. intros kv [? ?]. split; [done|lia].
Qed.

Lemma map_wf_fresh next m : map_wf idf next m → next ∉ jkeys m.
Proof.
  intros [_ Hf] [kv [-> Hin]]%list_elem_of_fmap.
  rewrite Forall_forall in Hf. destruct (Hf _ Hin). lia.
Qed.

(** [set] under the next id of the counter: the record goes last. *)
Lemma map_wf_set_next next m v :
  map_wf idf next m → idf v = next → map_wf idf (next + 1) (jset next v m).
Proof.
  intros Hwf Hid. rewrite jset_fresh by by eapply map_wf_fresh.
  destruct Hwf as [Hs Hf]. split.
  - unfold jkeys. rewrite fmap_app. apply StronglySorted_app. simpl.
    split_and!; [|done|repeat constructor].
    intros k1 k2 [kv [-> Hin]]%list_elem_of_fmap ->%list_elem_of_singleton.
    rewrite Forall_forall in Hf. destruct (Hf _ Hin). done.
  - apply Forall_app. split.
    + eapply Forall_impl; [exact Hf|]. intros kv [? ?]. split; [done|lia].
    + apply Forall_singleton. simpl. split; [done|lia].
Qed.

(** [set] under a key that is present: the record is replaced in place. *)
Lemma map_wf_set_present next m k v v0 :
  map_wf idf next m → jget k m = Some v0 → idf v = k → map_wf idf next (jset k v m).
Proof.
  intros Hwf Hget Hid. pose proof (map_wf_get _ _ _ _ Hwf Hget) as [_ Hlt].
  destruct Hwf as [Hs Hf]. split.
  - rewrite jkeys_set_present; [done|].
    apply jget_Some_elem in Hget. by apply (list_elem_of_fmap_2 fst) in Hget.
  - by apply Forall_jset.
Qed.

Lemma map_wf_filter next m (P : Z * V → Prop) `{!∀ kv, Decision (P kv)} :
  map_wf idf next m → map_wf idf next (filter P m).
Proof.
  intros [Hs Hf]. split.
  - unfold jkeys in *. clear Hf. induction m as [|kv m IH]; [done|].
    simpl in Hs. apply StronglySorted_cons in Hs as [Hk Hs].
    rewrite filter_cons. destruct (decide (P kv)); [|by apply IH].
    simpl. apply StronglySorted_cons. split; [|by apply IH].
    rewrite Forall_forall in Hk. apply Forall_forall.
    intros k' [kv' [-> [_ Hin]%list_elem_of_filter]]%list_elem_of_fmap.
    apply Hk. by apply list_elem_of_fmap_2.
  - apply Forall_forall. intros kv [_ Hin]%list_elem_of_filter.
    rewrite Forall_forall in Hf. auto.
Qed.

Lemma map_wf_delete next m k : map_wf idf next m → map_wf idf next (jdelete k m).
Proof. apply map_wf_filter. Qed.

(** A snapshot loop removes the bindings whose key is the id of a matching
    record of the snapshot. *)
Lemma delete_matching_filter (P : V → Prop) `{!∀ v, Decision (P v)} snapshot m :
  delete_matching idf P snapshot m =
  filter (λ kv, kv.1 ∉ idf <$> filter P snapshot) m.
Proof.
  unfold delete_matching. revert m.
  induction snapshot as [|v vs IH]; intros m; simpl.
  - symmetry. apply filter_Forall_id, Forall_forall.
    intros kv _. apply not_elem_of_nil.
  - rewrite IH, filter_cons. destruct (decide (P v)) as [HP|HP].
    + unfold jdelete. rewrite list_filter_filter. apply list_filter_iff.
      intros kv. rewrite fmap_cons, not_elem_of_cons. tauto.
    + done.
Qed.

Lemma delete_matching_values (P : V → Prop) `{!∀ v, Decision (P v)} next m :
  map_wf idf next m →
  delete_matching idf P (jvalues m) m = filter (λ kv, ¬ P kv.2) m.
Proof.
  intros Hwf. rewrite delete_matching_filter. apply filter_ext_elem.
  intros kv Hin. pose proof (map_wf_elem _ _ _ Hwf Hin) as [Hid _].
  split.
  - intros Hnin HP. apply Hnin. apply list_elem_of_fmap. exists kv.2.
    split; [done|]. apply list_elem_of_filter. split; [done|].
    by apply (list_elem_of_fmap_2 snd).
  - intros HnP [v [Hk [HP [kv' [-> Hin']]%list_elem_of_fmap]%list_elem_of_filter]]%list_elem_of_fmap.
    pose proof (map_wf_elem _ _ _ Hwf Hin') as [Hid' _].
    assert (kv = kv') as ->; [|done].
    eapply elem_of_NoDup_keys; [by eapply map_wf_NoDup|done|done|congruence].
Qed.

Lemma map_wf_delete_matching (P : V → Prop) `{!∀ v, Decision (P v)} next snapshot m :
  map_wf idf next m → map_wf idf next (delete_matching idf P snapshot m).
Proof. rewrite delete_matching_filter. apply map_wf_filter. Qed.
End jsmap_facts.

(** ** The sort model *)

Section js_sort_facts.
Context {A : Type} (cmp : A → A → Z).

Lemma sort_insert_perm x l : sort_insert cmp x l ≡ₚ x :: l.
Proof.
  induction l as [|y l IH]; simpl; [done|].
  destruct (decide (cmp x y ≤ 0)); [done|].
  rewrite IH. apply Permutation_swap.
Qed.

Lemma js_sort_perm l : js_sort cmp l ≡ₚ l.
Proof.
  induction l as [|x l IH]; simpl; [done|].
  fold (js_sort cmp l). by rewrite sort_insert_perm, IH.
Qed.

Lemma elem_of_js_sort x l : x ∈ js_sort cmp l ↔ x ∈ l.
Proof. by rewrite js_sort_perm. Qed.

Lemma js_sort_nil : js_sort cmp [] = [].
Proof. done. Qed.

(** The comparators of the store are differences of timestamps: total and
    transitive. *)
Hypothesis cmp_total : ∀ a b, cmp a b ≤ 0 ∨ cmp b a ≤ 0.
Hypothesis cmp_trans : ∀ a b c, cmp a b ≤ 0 → cmp b c ≤ 0 → cmp a c ≤ 0.

Lemma sort_insert_stable (before : A → A → Prop) x l :
  Forall (before x) l →
  StronglySorted (sorted_stable cmp before) l →
  StronglySorted (sorted_stable cmp before) (sort_insert cmp x l).
Proof.
  intros Hx Hs. induction Hs as [|y l Hs IH Hy]; simpl.
  - repeat constructor.
  - apply Forall_cons in Hx as [Hxy Hxl].
    destruct (decide (cmp x y ≤ 0)) as [Hle|Hgt].
    + apply SSorted_cons; [by apply SSorted_cons|].
      apply Forall_cons. split; [by split|].
      rewrite Forall_forall in Hy, Hxl. apply Forall_forall. intros z Hz.
      destruct (Hy _ Hz) as [Hyz _]. split; [by eapply cmp_trans|auto].
    + apply SSorted_cons; [by apply IH|].
      apply Forall_forall. intros z Hz.
      rewrite sort_insert_perm in Hz. apply elem_of_cons in Hz as [->|Hz].
      * split; [destruct (cmp_total x y); lia|lia].
      * rewrite Forall_forall in Hy. auto.
Qed.

Lemma js_sort_stable (before : A → A → Prop) l :
  StronglySorted before l → StronglySorted (sorted_stable cmp before) (js_sort cmp l).
Proof.
  induction 1 as [|x l Hs IH Hx]; simpl; [constructor|].
  fold (js_sort cmp l). apply sort_insert_stable; [|done].
  apply Forall_forall. intros y Hy. rewrite elem_of_js_sort in Hy.
  rewrite Forall_forall in Hx. auto.
Qed.
End js_sort_facts.

Lemma StronglySorted_filter {A} (R : relation A) (P : A → Prop)
    `{!∀ x, Decision (P x)} (l : list A) :
  StronglySorted R l → StronglySorted R (filter P l).
Proof.
  induction 1 as [|x l Hs IH Hx]; [constructor|].
  rewrite filter_cons. destruct (decide (P x)); [|done].
  apply SSorted_cons; [done|].
  apply Forall_forall. intros y [_ Hy]%list_elem_of_filter.
  rewrite Forall_forall in Hx. auto.
Qed.

(** In a well-formed collection the records iterate by increasing id. *)
Lemma map_wf_values_sorted {V} (idf : V → Z) next (m : jmap V) :
  map_wf idf next m → StronglySorted (λ a b, idf a < idf b) (jvalues m).
Proof.
  intros [Hs Hf]. unfold jvalues, jkeys in *.
  induction m as [|kv m IH]; simpl in *; [constructor|].
  apply StronglySorted_cons in Hs as [Hk Hs]. apply Forall_cons in Hf as [[Hid _] Hf].
  apply SSorted_cons; [by apply IH|].
  apply Forall_forall. intros v [kv' [-> Hin]]%list_elem_of_fmap.
  rewrite Forall_forall in Hk. rewrite Forall_forall in Hf.
  destruct (Hf _ Hin) as [-> _].
  rewrite Hid. apply Hk. by apply list_elem_of_fmap_2.
Qed.

(** ** Every operation keeps the store well formed *)

Ltac wf_open :=
  match goal with
  | H : store_wf _ |- _ => destruct H as (Hwu & Hwp & Hwl & Hwc & Hwfr & Hws)
  end.

Ltac wf_close :=
  unfold store_wf; simpl; split_and!;
  eauto using map_wf_set_next, map_wf_delete, map_wf_delete_matching, map_wf_filter.

Lemma empty_store_wf : store_wf empty_store.
Proof. unfold store_wf, map_wf; simpl. split_and!; constructor. Qed.

Lemma createUser_wf i now s : store_wf s → store_wf (createUser i now s).2.
Proof. intros. wf_open. wf_close. Qed.

Lemma createPost_wf i now s : store_wf s → store_wf (createPost i now s).2.
Proof. intros. wf_open. wf_close. Qed.

Lemma createLike_wf i now s : store_wf s → store_wf (createLike i now s).2.
Proof. intros. wf_open. wf_close. Qed.

Lemma createComment_wf i now s : store_wf s → store_wf (createComment i now s).2.
Proof. intros. wf_open. wf_close. Qed.

Lemma createFriendRequest_wf i now s :
  store_wf s → store_wf (createFriendRequest i now s).2.
Proof. intros. wf_open. wf_close. Qed.

Lemma createStory_wf u m now s : store_wf s → store_wf (createStory u m now s).2.
Proof. intros. wf_open. wf_close. Qed.

Lemma updateUser_wf id upd s : store_wf s → store_wf (updateUser id upd s).2.
Proof.
  intros Hwf. unfold updateUser, getUser.
  destruct (jget id (users s)) as [user|] eqn:Hget; [|done].
  wf_open. wf_close.
  eapply map_wf_set_present; [done..|]. simpl. by eapply map_wf_get.
Qed.

Lemma toggleUserBanStatus_wf id s : store_wf s → store_wf (toggleUserBanStatus id s).2.
Proof.
  intros Hwf. unfold toggleUserBanStatus, getUser.
  destruct (jget id (users s)) as [user|] eqn:Hget; [|done].
  wf_open. wf_close.
  eapply map_wf_set_present; [done..|]. simpl. by eapply map_wf_get.
Qed.

Lemma updatePost_wf id c s : store_wf s → store_wf (updatePost id c s).2.
Proof.
  intros Hwf. unfold updatePost, getPost.
  destruct (jget id (posts s)) as [post|] eqn:Hget; [|done].
  wf_open. wf_close.
  eapply map_wf_set_present; [done..|]. simpl. by eapply map_wf_get.
Qed.

Lemma acceptFriendRequest_wf id s : store_wf s → store_wf (acceptFriendRequest id s).2.
Proof.
  intros Hwf. unfold acceptFriendRequest.
  destruct (jget id (friends s)) as [friend|] eqn:Hget; [|done].
  wf_open. wf_close.
  eapply map_wf_set_present; [done..|]. simpl. by eapply map_wf_get.
Qed.

Lemma rejectFriendRequest_wf id s : store_wf s → store_wf (rejectFriendRequest id s).2.
Proof.
  intros Hwf. unfold rejectFriendRequest.
  destruct (jget id (friends s)) as [friend|] eqn:Hget; [|done].
  wf_open. wf_close.
  eapply map_wf_set_present; [done..|]. simpl. by eapply map_wf_get.
Qed.

Lemma removeLike_wf u p s : store_wf s → store_wf (removeLike u p s).
Proof.
  intros Hwf. unfold removeLike. destruct (getLike u p s); [|done].
  wf_open. wf_close.
Qed.

Lemma savePost_wf u p s : store_wf s → store_wf (savePost u p s).
Proof. intros Hwf. unfold savePost. case_decide; [done|]. wf_open. wf_close. Qed.

Lemma unsavePost_wf u p s : store_wf s → store_wf (unsavePost u p s).
Proof.
  intros Hwf. unfold unsavePost. destruct (savedPosts s !! u); [|done].
  wf_open. wf_close.
Qed.

Lemma deletePost_wf id s : store_wf s → store_wf (deletePost id s).2.
Proof.
  intros Hwf. unfold deletePost. destruct (getPost id s); [|done].
  wf_open. wf_close.
Qed.

Lemma deletePosts_wf (pids : list Z) s :
  store_wf s → store_wf (foldl (λ st pid, (deletePost pid st).2) s pids).
Proof.
  revert s. induction pids as [|pid pids IH]; intros s Hwf; simpl; [done|].
  by apply IH, deletePost_wf.
Qed.

Lemma foldl_fmap_arg {A B C} (f : A → C → A) (g : B → C) (a : A) (l : list B) :
  foldl (λ acc x, f acc (g x)) a l = foldl f a (g <$> l).
Proof. revert a. induction l as [|x l IH]; intros a; simpl; [done|]. apply IH. Qed.

Lemma deleteUser_wf id s : store_wf s → store_wf (deleteUser id s).2.
Proof.
  intros Hwf. unfold deleteUser. destruct (getUser id s); [|done].
  cbv zeta.
  rewrite (foldl_fmap_arg (λ st pid, (deletePost pid st).2) (λ post, post_id (pwa_post post))).
  match goal with
  | |- context [foldl ?f ?s0 ?l] =>
      assert (store_wf (foldl f s0 l)) as Hwf';
      [apply deletePosts_wf; clear -Hwf; wf_open; wf_close|
       generalize dependent (foldl f s0 l)]
  end.
  intros s' Hwf'. clear Hwf. wf_open. wf_close.
Qed.

Lemma exec_wf s op : store_wf s → store_wf (exec s op).
Proof.
  intros Hwf. destruct op; unfold exec.
  - by apply createUser_wf.
  - by apply updateUser_wf.
  - by apply deleteUser_wf.
  - by apply toggleUserBanStatus_wf.
  - by apply createPost_wf.
  - by apply updatePost_wf.
  - by apply deletePost_wf.
  - by apply createLike_wf.
  - by apply removeLike_wf.
  - by apply createComment_wf.
  - by apply createFriendRequest_wf.
  - by apply acceptFriendRequest_wf.
  - by apply rejectFriendRequest_wf.
  - by apply savePost_wf.
  - by apply unsavePost_wf.
  - by apply createStory_wf.
Qed.

Lemma run_wf ops s : store_wf s → store_wf (run ops s).
Proof.
  revert s. induction ops as [|op ops IH]; intros s Hwf; simpl; [done|].
  by apply IH, exec_wf.
Qed.

Lemma reachable_wf s : reachable s → store_wf s.
Proof. intros [ops ->]. apply run_wf, empty_store_wf. Qed.

(** ** The friend graph as the queries see it *)

Lemma joins_sym u v f : joins u v f ↔ joins v u f.
Proof. unfold joins. tauto. Qed.

(** The ids [getFriendSuggestions] collects from [getFriends]. *)
Lemma suggestion_friend_ids u v s :
  v ∈ (λ f, if decide (friend_friendId (fwu_friend f) = u)
            then friend_userId (fwu_friend f) else friend_friendId (fwu_friend f))
        <$> getFriends u s
  ↔ are_friends s u v.
Proof.
  unfold getFriends, are_friends, joins. rewrite Exists_exists, <- list_fmap_compose.
  rewrite list_elem_of_fmap. simpl. split.
  - intros [f [-> [[Hacc Hparty] Hin]%list_elem_of_filter]].
    exists f. split; [done|]. split; [done|].
    destruct (decide (friend_friendId f = u)); [by right|].
    destruct Hparty; [by left|done].
  - intros [f [Hin [Hacc Hj]]]. exists f. split.
    + destruct (decide (friend_friendId f = u)) as [Heq|Hne];
        destruct Hj as [[? ?]|[? ?]]; congruence.
    + apply list_elem_of_filter. tauto.
Qed.

(** The ids [getPostsForFeed] and [getStories] collect from [getFriends]. *)
Lemma feed_friend_ids u v s :
  v ∈ (λ f, if decide (friend_userId (fwu_friend f) = u)
            then friend_friendId (fwu_friend f) else friend_userId (fwu_friend f))
        <$> getFriends u s
  ↔ are_friends s u v.
Proof.
  unfold getFriends, are_friends, joins. rewrite Exists_exists, <- list_fmap_compose.
  rewrite list_elem_of_fmap. simpl. split.
  - intros [f [-> [[Hacc Hparty] Hin]%list_elem_of_filter]].
    exists f. split; [done|]. split; [done|].
    destruct (decide (friend_userId f = u)); [by left|].
    destruct Hparty; [done|by right].
  - intros [f [Hin [Hacc Hj]]]. exists f. split.
    + destruct (decide (friend_userId f = u)) as [Heq|Hne];
        destruct Hj as [[? ?]|[? ?]]; congruence.
    + apply list_elem_of_filter. tauto.
Qed.

(** ** C1: friend suggestions *)

(** C1 (as amended).  [getFriendSuggestions u] is the first five, in the
    insertion order of the user collection, of the users that are not [u] and
    have no _accepted_ edge with [u]; a pending or rejected edge does not
    exclude a user. *)
Theorem getFriendSuggestions_accepted_only (u : Z) (s : Store) :
  getFriendSuggestions u s =
  take 5 (filter (λ x, user_id x ≠ u ∧ ¬ are_friends s u (user_id x))
            (jvalues (users s))).
Proof.
  unfold getFriendSuggestions. f_equal. apply list_filter_iff. intros x.
  rewrite not_elem_of_union, not_elem_of_singleton, elem_of_list_to_set.
  rewrite suggestion_friend_ids. tauto.
Qed.

(** C1 (as stated) fails: Bob is suggested to Alice although a pending edge
    joins them. *)
Lemma getFriendSuggestions_pending_counterexample :
  ¬ (∀ (s : Store) (u : Z) (x : User),
       reachable s → x ∈ getFriendSuggestions u s →
       user_id x ≠ u ∧ ¬ has_edge s u (user_id x)).
Proof.
  intros H.
  destruct (H pending_store 1 (createUser demo_bob 20 (createUser demo_alice 10 empty_store).2).1)
    as [_ Hno].
  - by eexists.
  - vm_compute. apply list_elem_of_here.
  - apply Hno. apply (bool_decide_unpack _). by vm_compute.
Qed.

(** ** [find] *)

Lemma js_find_head_filter {A} (P : A → Prop) `{!∀ x, Decision (P x)} (l : list A) :
  js_find P l = head (filter P l).
Proof.
  unfold js_find. induction l as [|x l IH]; [done|].
  rewrite filter_cons. simpl. destruct (decide (P x)); [done|].
  rewrite <- IH. by destruct (list_find P l) as [[? ?]|].
Qed.

Lemma js_find_None {A} (P : A → Prop) `{!∀ x, Decision (P x)} (l : list A) :
  js_find P l = None ↔ filter P l = [].
Proof. rewrite js_find_head_filter. by destruct (filter P l). Qed.

Lemma js_find_Some {A} (P : A → Prop) `{!∀ x, Decision (P x)} (l : list A) x :
  js_find P l = Some x → x ∈ l ∧ P x.
Proof.
  rewrite js_find_head_filter. intros Hhd.
  assert (x ∈ filter P l) as Hin.
  { destruct (filter P l); simplify_eq/=. apply list_elem_of_here. }
  apply list_elem_of_filter in Hin. tauto.
Qed.

Lemma js_find_ext {A} (P Q : A → Prop)
    `{!∀ x, Decision (P x), !∀ x, Decision (Q x)} (l : list A) :
  (∀ x, P x ↔ Q x) → js_find P l = js_find Q l.
Proof. intros HPQ. rewrite !js_find_head_filter. f_equal. by apply list_filter_iff. Qed.

(** ** C2: likes of one (user, post) pair *)

Lemma createLike_likes i now s :
  store_wf s →
  likes (createLike i now s).2 =
  likes s ++ [(currentLikeId s, (createLike i now s).1)].
Proof.
  intros Hwf. wf_open. simpl. apply jset_fresh. by eapply map_wf_fresh.
Qed.

(** C2 (as amended).  [createLike] does not look for an existing Like: every
    call appends one new record, under a fresh id, so the pair has exactly
    one more Like than before and the other pairs keep theirs.  The pair has
    a single Like after the call when the caller found none with [getLike]
    before it, which is what the like route checks. *)
Theorem createLike_appends (i : InsertLike) (now : Z) (s : Store) :
  store_wf s →
  let u := il_userId i in
  let p := il_postId i in
  let like := (createLike i now s).1 in
  let s' := (createLike i now s).2 in
  like_id like = currentLikeId s ∧ like_userId like = u ∧ like_postId like = p ∧
  jget (like_id like) (likes s) = None ∧
  jvalues (likes s') = jvalues (likes s) ++ [like] ∧
  likes_of u p s' = likes_of u p s ++ [like] ∧
  (∀ u' p', (u', p') ≠ (u, p) → likes_of u' p' s' = likes_of u' p' s) ∧
  (getLike u p s = None → likes_of u p s' = [like]).
Proof.
  intros Hwf u p like s'.
  assert (jvalues (likes s') = jvalues (likes s) ++ [like]) as Hvals.
  { unfold s', jvalues. rewrite createLike_likes by done. by rewrite fmap_app. }
  split_and!; try done.
  - apply jget_None_keys. wf_open. by eapply map_wf_fresh.
  - unfold likes_of. rewrite Hvals, filter_app. f_equal.
    by rewrite filter_cons_True.
  - intros u' p' Hne. unfold likes_of. rewrite Hvals, filter_app.
    rewrite filter_cons_False; [by rewrite filter_nil, app_nil_r|].
    simpl. intros [? ?]. apply Hne. by f_equal.
  - unfold getLike. rewrite js_find_None. intros Hnone.
    unfold likes_of. rewrite Hvals, filter_app, Hnone.
    by rewrite filter_cons_True.
Qed.

Lemma createLike_appends_witness :
  store_wf liked_store ∧
  likes_of 1 1 (createLike (mkInsertLike 1 1) 20 liked_store).2 =
  likes_of 1 1 liked_store ++ [(createLike (mkInsertLike 1 1) 20 liked_store).1].
Proof.
  assert (store_wf liked_store) as Hwf by (apply (bool_decide_unpack _); by vm_compute).
  split; [exact Hwf|].
  apply (createLike_appends (mkInsertLike 1 1) 20 liked_store Hwf).
Defined.

(** C2 (as stated) fails: the store inserts the second Like of a pair. *)
Lemma createLike_duplicate_counterexample :
  ¬ (∀ (s : Store) (i : InsertLike) (now : Z) (l1 l2 : Like),
       reachable s →
       l1 ∈ jvalues (likes (createLike i now s).2) →
       l2 ∈ jvalues (likes (createLike i now s).2) →
       like_userId l1 = il_userId i → like_postId l1 = il_postId i →
       like_userId l2 = il_userId i → like_postId l2 = il_postId i →
       l1 = l2).
Proof.
  intros H.
  specialize (H liked_store (mkInsertLike 1 1) 20 (mkLike 1 1 1 10) (mkLike 2 1 1 20)).
  discriminate H; try done.
  - by eexists.
  - vm_compute. apply list_elem_of_here.
  - vm_compute. apply list_elem_of_further, list_elem_of_here.
Qed.

(** ** C3: the feed *)

Lemma StronglySorted_impl {A} (R1 R2 : relation A) (l : list A) :
  (∀ a b, R1 a b → R2 a b) → StronglySorted R1 l → StronglySorted R2 l.
Proof.
  intros HR. induction 1 as [|x l Hs IH Hx]; constructor; [done|].
  eapply Forall_impl; [exact Hx|]. auto.
Qed.

(** The posts of the feed, without what [getPostsForFeed] joins to them. *)
Lemma getPostsForFeed_posts u s :
  pwa_post <$> getPostsForFeed u s =
  js_sort (λ a b, post_createdAt b - post_createdAt a)
    (filter (λ p, post_userId p = u ∨ are_friends s u (post_userId p))
       (jvalues (posts s))).
Proof.
  unfold getPostsForFeed. rewrite <- list_fmap_compose.
  match goal with |- ?f <$> ?l = _ => transitivity (id <$> l) end.
  { by apply list_fmap_ext. }
  rewrite list_fmap_id. f_equal. apply list_filter_iff. intros p.
  rewrite elem_of_app, feed_friend_ids, list_elem_of_singleton. tauto.
Qed.

(** C3 (as amended).  The feed of [u] holds exactly the posts written by [u]
    or by a user joined to [u] by an accepted edge, each once, newest first;
    posts with the same timestamp keep the insertion order of the collection,
    that is, they come by _increasing_ id. *)
Theorem getPostsForFeed_order (u : Z) (s : Store) :
  store_wf s →
  let feed := pwa_post <$> getPostsForFeed u s in
  feed ≡ₚ filter (λ p, post_userId p = u ∨ are_friends s u (post_userId p))
            (jvalues (posts s)) ∧
  (∀ p, p ∈ feed ↔
        p ∈ jvalues (posts s) ∧ (post_userId p = u ∨ are_friends s u (post_userId p))) ∧
  StronglySorted
    (λ a b, post_createdAt b < post_createdAt a ∨
            (post_createdAt a = post_createdAt b ∧ post_id a < post_id b))
    feed.
Proof.
  intros Hwf feed. unfold feed. rewrite getPostsForFeed_posts. split_and!.
  - apply js_sort_perm.
  - intros p. rewrite elem_of_js_sort, list_elem_of_filter. tauto.
  - eapply StronglySorted_impl;
      [|apply (js_sort_stable _) with (before := λ a b, post_id a < post_id b)].
    + intros a b [Hle Htie]. simpl in *.
      destruct (decide (post_createdAt a ≤ post_createdAt b)); [|lia].
      right. split; [lia|]. apply Htie. lia.
    + intros a b. simpl. lia.
    + intros a b c. simpl. lia.
    + apply StronglySorted_filter. wf_open. by eapply map_wf_values_sorted.
Qed.

Lemma getPostsForFeed_order_witness :
  store_wf tie_store ∧
  StronglySorted
    (λ a b, post_createdAt b < post_createdAt a ∨
            (post_createdAt a = post_createdAt b ∧ post_id a < post_id b))
    (pwa_post <$> getPostsForFeed 1 tie_store).
Proof.
  assert (store_wf tie_store) as Hwf by (apply (bool_decide_unpack _); by vm_compute).
  split; [exact Hwf|].
  apply (getPostsForFeed_order 1 tie_store Hwf).
Defined.

(** C3 (as stated) fails: of two posts with one timestamp the older id comes
    first in the feed. *)
Lemma getPostsForFeed_ties_counterexample :
  ¬ (∀ (s : Store) (u : Z),
       reachable s →
       StronglySorted
         (λ a b, post_createdAt b < post_createdAt a ∨
                 (post_createdAt a = post_createdAt b ∧ post_id b < post_id a))
         (pwa_post <$> getPostsForFeed u s)).
Proof.
  intros H. specialize (H tie_store 1 (ex_intro _ _ eq_refl)).
  vm_compute in H.
  apply StronglySorted_cons in H as [Hfirst _].
  apply Forall_cons in Hfirst as [[Hlt|[_ Hlt]] _]; vm_compute in Hlt; discriminate.
Qed.

(** ** C6: deleting a post *)

Lemma filter_nil_Forall {A} (P : A → Prop) `{!∀ x, Decision (P x)} (l : list A) :
  Forall (λ x, ¬ P x) l → filter P l = [].
Proof.
  induction 1 as [|x l Hx Hl IH]; [done|]. by rewrite filter_cons_False.
Qed.

Lemma Forall_values_filter {V} (Q : V → Prop) (P : Z * V → Prop)
    `{!∀ kv, Decision (P kv)} (m : jmap V) :
  (∀ kv, P kv → Q kv.2) → Forall Q (jvalues (filter P m)).
Proof.
  intros HPQ. apply Forall_forall.
  intros v [kv [-> [HP _]%list_elem_of_filter]]%list_elem_of_fmap. auto.
Qed.

(** What [deletePost] leaves of a well-formed store that holds the post. *)
Lemma deletePost_present id post s :
  store_wf s → getPost id s = Some post →
  deletePost id s =
  (true,
   with_comments (filter (λ kv, comment_postId kv.2 ≠ id) (comments s))
     (with_likes (filter (λ kv, like_postId kv.2 ≠ id) (likes s))
        (with_posts (jdelete id (posts s)) s))).
Proof.
  intros Hwf Hget. unfold deletePost. rewrite Hget. wf_open. simpl.
  rewrite (delete_matching_values like_id _ _ _ Hwl).
  rewrite (delete_matching_values comment_id _ _ _ Hwc).
  done.
Qed.

(** C6.  Deleting a post that is present returns [true]; afterwards the post
    is gone and no like and no comment of it is left, however many there
    were.  Deleting a post that is absent returns [false] (and changes
    nothing). *)
Theorem deletePost_cascade (p : Z) (s : Store) :
  store_wf s →
  match getPost p s with
  | Some _ =>
      (deletePost p s).1 = true ∧
      getPost p (deletePost p s).2 = None ∧
      getLikesByPost p (deletePost p s).2 = [] ∧
      getCommentsByPost p (deletePost p s).2 = []
  | None => deletePost p s = (false, s)
  end.
Proof.
  intros Hwf. destruct (getPost p s) as [post|] eqn:Hget.
  - rewrite (deletePost_present _ _ _ Hwf Hget). simpl. split_and!.
    + done.
    + apply jget_delete_eq.
    + unfold getLikesByPost. simpl. apply filter_nil_Forall.
      apply (Forall_values_filter (λ like, like_postId like ≠ p)). auto.
    + unfold getCommentsByPost. simpl. rewrite filter_nil_Forall; [done|].
      apply (Forall_values_filter (λ comment, comment_postId comment ≠ p)). auto.
  - unfold deletePost. by rewrite Hget.
Qed.

Lemma deletePost_cascade_witness :
  store_wf busy_store ∧
  length (getLikesByPost 1 busy_store) = 2%nat ∧
  length (getCommentsByPost 1 busy_store) = 2%nat ∧
  (deletePost 1 busy_store).1 = true ∧
  getPost 1 (deletePost 1 busy_store).2 = None ∧
  getLikesByPost 1 (deletePost 1 busy_store).2 = [] ∧
  getCommentsByPost 1 (deletePost 1 busy_store).2 = [].
Proof.
  assert (store_wf busy_store) as Hwf by (apply (bool_decide_unpack _); by vm_compute).
  split; [exact Hwf|]. split; [reflexivity|]. split; [reflexivity|].
  exact (deletePost_cascade 1 busy_store Hwf).
Defined.

(** ** C4: deleting a user *)

Lemma getPostsByUser_posts u s :
  pwa_post <$> getPostsByUser u s =
  js_sort (λ a b, post_createdAt b - post_createdAt a)
    (filter (λ post, post_userId post = u) (jvalues (posts s))).
Proof.
  unfold getPostsByUser. rewrite <- list_fmap_compose.
  match goal with |- ?f <$> ?l = _ => transitivity (id <$> l) end.
  { by apply list_fmap_ext. }
  by rewrite list_fmap_id.
Qed.

Lemma with_same s :
  with_comments (comments s) (with_likes (likes s) (with_posts (posts s) s)) = s.
Proof. by destruct s. Qed.

(** The loop of [deleteUser] over the user's posts: distinct posts, all
    present, go with their likes and comments. *)
Lemma deletePosts_present (pids : list Z) s :
  store_wf s → NoDup pids → (∀ pid, pid ∈ pids → pid ∈ jkeys (posts s)) →
  foldl (λ st pid, (deletePost pid st).2) s pids =
  with_comments (filter (λ kv, comment_postId kv.2 ∉ pids) (comments s))
    (with_likes (filter (λ kv, like_postId kv.2 ∉ pids) (likes s))
       (with_posts (filter (λ kv, kv.1 ∉ pids) (posts s)) s)).
Proof.
  revert s. induction pids as [|pid pids IH]; intros s Hwf Hnd Hin; simpl.
  - rewrite !filter_Forall_id; [by rewrite with_same|..];
      apply Forall_forall; intros ? _; apply not_elem_of_nil.
  - apply NoDup_cons in Hnd as [Hpid Hnd].
    destruct (getPost pid s) as [post|] eqn:Hget.
    2:{ apply jget_None_keys in Hget. destruct Hget. apply Hin, list_elem_of_here. }
    pose proof (deletePost_wf pid s Hwf) as Hwf'.
    rewrite (deletePost_present _ _ _ Hwf Hget) in *. simpl in *.
    rewrite IH; [|done|done|]; simpl.
    + unfold with_comments, with_likes, with_posts, jdelete. simpl.
      rewrite !list_filter_filter.
      f_equal; apply list_filter_iff; intros kv; rewrite not_elem_of_cons; tauto.
    + intros pid' Hin'. unfold jkeys, jdelete.
      assert (pid' ∈ jkeys (posts s)) as [kv [-> Hkv]]%list_elem_of_fmap
        by by apply Hin, list_elem_of_further.
      apply list_elem_of_fmap_2, list_elem_of_filter. split; [|done].
      intros Heq. apply Hpid. by rewrite <- Heq.
Qed.

Lemma elem_of_post_ids_of u s pid :
  store_wf s →
  pid ∈ post_ids_of u s ↔ ∃ post, getPost pid s = Some post ∧ post_userId post = u.
Proof.
  intros Hwf. wf_open. unfold post_ids_of.
  rewrite (list_fmap_compose pwa_post post_id), getPostsByUser_posts.
  rewrite list_elem_of_fmap. split.
  - intros [post [-> Hin]]. rewrite elem_of_js_sort in Hin.
    apply list_elem_of_filter in Hin as [Hu [kv [-> Hin]]%list_elem_of_fmap].
    exists kv.2. split; [|done]. unfold getPost.
    apply jget_elem_NoDup; [by eapply map_wf_NoDup|].
    destruct (map_wf_elem _ _ _ _ Hwp Hin) as [-> _]. by destruct kv.
  - intros [post [Hget Hu]]. exists post.
    destruct (map_wf_get _ _ _ _ _ Hwp Hget) as [<- _]. split; [done|].
    rewrite elem_of_js_sort. apply list_elem_of_filter. split; [done|].
    apply jget_Some_elem in Hget. by apply (list_elem_of_fmap_2 snd) in Hget.
Qed.

Lemma post_ids_of_NoDup u s : store_wf s → NoDup (post_ids_of u s).
Proof.
  intros Hwf. wf_open. unfold post_ids_of.
  rewrite (list_fmap_compose pwa_post post_id), getPostsByUser_posts.
  rewrite js_sort_perm.
  pose proof (map_wf_values_sorted _ _ _ Hwp) as Hs.
  apply (StronglySorted_filter _ (λ post, post_userId post = u)) in Hs.
  induction Hs as [|x l Hs IH Hx]; [apply NoDup_nil_2|].
  rewrite fmap_cons. apply NoDup_cons. split; [|done].
  intros [y [Heq Hy]]%list_elem_of_fmap.
  rewrite Forall_forall in Hx. specialize (Hx _ Hy). lia.
Qed.

Lemma post_ids_of_with_users u m s : post_ids_of u (with_users m s) = post_ids_of u s.
Proof.
  unfold post_ids_of.
  by rewrite !(list_fmap_compose pwa_post post_id), !getPostsByUser_posts.
Qed.

Lemma with_users_wf u s : store_wf s → store_wf (with_users (jdelete u (users s)) s).
Proof. intros. wf_open. wf_close. Qed.

(** What [deleteUser] leaves of a well-formed store that holds the user. *)
Lemma deleteUser_present u user s :
  store_wf s → getUser u s = Some user →
  deleteUser u s =
  (true,
   with_friends
     (filter (λ kv, ¬ (friend_userId kv.2 = u ∨ friend_friendId kv.2 = u)) (friends s))
     (with_comments
        (filter (λ kv, comment_userId kv.2 ≠ u)
           (filter (λ kv, comment_postId kv.2 ∉ post_ids_of u s) (comments s)))
        (with_likes
           (filter (λ kv, like_userId kv.2 ≠ u)
              (filter (λ kv, like_postId kv.2 ∉ post_ids_of u s) (likes s)))
           (with_posts (filter (λ kv, kv.1 ∉ post_ids_of u s) (posts s))
              (with_users (jdelete u (users s)) s))))).
Proof.
  intros Hwf Hget. pose proof (with_users_wf u s Hwf) as Hwf1.
  unfold deleteUser. rewrite Hget. cbv zeta.
  rewrite (foldl_fmap_arg (λ st pid, (deletePost pid st).2)
             (λ post, post_id (pwa_post post))).
  fold (post_ids_of u (with_users (jdelete u (users s)) s)).
  rewrite post_ids_of_with_users.
  rewrite deletePosts_present; [|done|by apply post_ids_of_NoDup|].
  2:{ intros pid [post [Hp _]]%elem_of_post_ids_of; [|done].
      apply jget_Some_elem in Hp. by apply (list_elem_of_fmap_2 fst) in Hp. }
  clear Hwf1. wf_open. simpl.
  rewrite (delete_matching_values like_id _ (currentLikeId s));
    [|by apply map_wf_filter].
  rewrite (delete_matching_values comment_id _ (currentCommentId s));
    [|by apply map_wf_filter].
  by rewrite (delete_matching_values friend_id _ _ _ Hwfr).
Qed.

(** C4.  Deleting a user that is present returns [true]; afterwards the user
    is gone, no post of the user is left, no like and no comment written by
    the user or attached to one of the user's posts is left, and no friend
    edge names the user as either party.  Deleting a user that is absent
    returns [false] and changes nothing. *)
Theorem deleteUser_cascade (u : Z) (s : Store) :
  store_wf s →
  match getUser u s with
  | Some _ =>
      let s' := (deleteUser u s).2 in
      (deleteUser u s).1 = true ∧
      getUser u s' = None ∧
      (∀ p, p ∈ jvalues (posts s') → post_userId p ≠ u) ∧
      (∀ l, l ∈ jvalues (likes s') →
            like_userId l ≠ u ∧
            ∀ p, p ∈ jvalues (posts s) → post_userId p = u → like_postId l ≠ post_id p) ∧
      (∀ c, c ∈ jvalues (comments s') →
            comment_userId c ≠ u ∧
            ∀ p, p ∈ jvalues (posts s) → post_userId p = u → comment_postId c ≠ post_id p) ∧
      (∀ f, f ∈ jvalues (friends s') → friend_userId f ≠ u ∧ friend_friendId f ≠ u)
  | None => deleteUser u s = (false, s)
  end.
Proof.
  intros Hwf. destruct (getUser u s) as [user|] eqn:Hget.
  2:{ unfold deleteUser. by rewrite Hget. }
  rewrite (deleteUser_present _ _ _ Hwf Hget). simpl.
  assert (∀ p, p ∈ jvalues (posts s) → post_userId p = u → post_id p ∈ post_ids_of u s)
    as Hpids.
  { intros p [kv [-> Hin]]%list_elem_of_fmap Hu.
    apply elem_of_post_ids_of; [done|]. exists kv.2. split; [|done].
    wf_open. destruct (map_wf_elem _ _ _ _ Hwp Hin) as [-> _].
    unfold getPost. apply jget_elem_NoDup; [by eapply map_wf_NoDup|]. by destruct kv. }
  split_and!.
  - done.
  - apply jget_delete_eq.
  - intros p [kv [-> [Hnin Hin]%list_elem_of_filter]]%list_elem_of_fmap Hu.
    apply Hnin. wf_open. destruct (map_wf_elem _ _ _ _ Hwp Hin) as [<- _].
    apply Hpids; [|done]. by apply (list_elem_of_fmap_2 snd).
  - intros l [kv [-> [Hu [Hnin Hin]%list_elem_of_filter]%list_elem_of_filter]]%list_elem_of_fmap.
    split; [done|]. intros p Hp Hpu Heq. apply Hnin. rewrite Heq. by apply Hpids.
  - intros c [kv [-> [Hu [Hnin Hin]%list_elem_of_filter]%list_elem_of_filter]]%list_elem_of_fmap.
    split; [done|]. intros p Hp Hpu Heq. apply Hnin. rewrite Heq. by apply Hpids.
  - intros f [kv [-> [Hu Hin]%list_elem_of_filter]]%list_elem_of_fmap. tauto.
Qed.

Lemma deleteUser_cascade_witness :
  store_wf busy_store ∧
  (deleteUser 1 busy_store).1 = true ∧
  getUser 1 (deleteUser 1 busy_store).2 = None ∧
  (∀ p, p ∈ jvalues (posts (deleteUser 1 busy_store).2) → post_userId p ≠ 1) ∧
  (∀ f, f ∈ jvalues (friends (deleteUser 1 busy_store).2) →
        friend_userId f ≠ 1 ∧ friend_friendId f ≠ 1).
Proof.
  assert (store_wf busy_store) as Hwf by (apply (bool_decide_unpack _); by vm_compute).
  split; [exact Hwf|].
  pose proof (deleteUser_cascade 1 busy_store Hwf) as H.
  change (getUser 1 busy_store) with (Some (createUser demo_alice 10 empty_store).1) in H.
  cbv beta iota zeta in H. tauto.
Defined.

(** ** C5: the status of a friend edge *)

Lemma jget_filter_NoDup {V} (P : Z * V → Prop) `{!∀ kv, Decision (P kv)}
    (m : jmap V) k v :
  NoDup (jkeys m) → jget k (filter P m) = Some v → jget k m = Some v.
Proof.
  intros Hnd Hget%jget_Some_elem. apply list_elem_of_filter in Hget as [_ Hin].
  by apply jget_elem_NoDup.
Qed.

Lemma deletePost_friends id s :
  friends (deletePost id s).2 = friends s ∧
  currentFriendId (deletePost id s).2 = currentFriendId s.
Proof. unfold deletePost. by destruct (getPost id s). Qed.

(** How one operation can change what the store holds under an edge id that
    has been handed out: nothing, the edge is deleted, or its status is set
    to accepted or rejected.  The counter does not go back. *)
Lemma exec_friend_edge (s : Store) (op : Op) (id : Z) :
  store_wf s → id < currentFriendId s →
  currentFriendId s ≤ currentFriendId (exec s op) ∧
  (jget id (friends (exec s op)) = jget id (friends s) ∨
   jget id (friends (exec s op)) = None ∨
   ∃ f st, st ≠ Pending ∧ jget id (friends s) = Some f ∧
           jget id (friends (exec s op)) = Some (set_status st f)).
Proof.
  intros Hwf Hid. destruct op; simpl.
  - split; [done|by left].
  - unfold updateUser. destruct (getUser _ s); (split; [done|by left]).
  - destruct (getUser id0 s) as [user|] eqn:Hget.
    + rewrite (deleteUser_present _ _ _ Hwf Hget). simpl. split; [done|].
      match goal with |- context [filter ?P (friends s)] =>
        destruct (jget id (filter P (friends s))) as [f|] eqn:Hf; [left|by right; left]
      end.
      symmetry. eapply jget_filter_NoDup; [|done]. wf_open. by eapply map_wf_NoDup.
    + unfold deleteUser. rewrite Hget. split; [done|by left].
  - unfold toggleUserBanStatus. destruct (getUser _ s); (split; [done|by left]).
  - split; [done|by left].
  - unfold updatePost. destruct (getPost _ s); (split; [done|by left]).
  - destruct (deletePost_friends id0 s) as [-> ->]. split; [done|by left].
  - split; [done|by left].
  - unfold removeLike. destruct (getLike _ _ s); (split; [done|by left]).
  - split; [done|by left].
  - split; [lia|]. left. apply jget_set_ne. lia.
  - unfold acceptFriendRequest. destruct (jget id0 (friends s)) as [f|] eqn:Hf; simpl.
    2:{ split; [done|by left]. }
    split; [done|]. destruct (decide (id0 = id)) as [->|Hne].
    + right; right. exists f, Accepted. by rewrite jget_set_eq.
    + left. by apply jget_set_ne.
  - unfold rejectFriendRequest. destruct (jget id0 (friends s)) as [f|] eqn:Hf; simpl.
    2:{ split; [done|by left]. }
    split; [done|]. destruct (decide (id0 = id)) as [->|Hne].
    + right; right. exists f, Rejected. by rewrite jget_set_eq.
    + left. by apply jget_set_ne.
  - unfold savePost. case_decide; (split; [done|by left]).
  - unfold unsavePost. destruct (savedPosts s !! userId); (split; [done|by left]).
  - split; [done|by left].
Qed.

(** Once the edge stored under an id is not pending, no history of the store
    makes the edge stored under that id pending. *)
Lemma run_never_pending (ops : list Op) (s : Store) (id : Z) :
  store_wf s → id < currentFriendId s →
  (∀ f, jget id (friends s) = Some f → friend_status f ≠ Pending) →
  ∀ f', jget id (friends (run ops s)) = Some f' → friend_status f' ≠ Pending.
Proof.
  revert s. induction ops as [|op ops IH]; intros s Hwf Hid Hs; simpl; [done|].
  destruct (exec_friend_edge s op id Hwf Hid) as [Hle Hcases].
  apply IH; [by apply exec_wf|lia|].
  intros f Hf. destruct Hcases as [Heq|[Hnone|(f0 & st & Hst & _ & Hset)]].
  - apply Hs. by rewrite <- Heq.
  - congruence.
  - rewrite Hset in Hf. injection Hf as <-. done.
Qed.

(** C5 (as amended).  An edge is created under a fresh id with the status the
    caller passes, [pending] when none is passed, and leaves the other edges
    as they are.  [acceptFriendRequest] and [rejectFriendRequest] set the
    status of the edge of the given id whatever its status is, and signal
    "not found" without a change when there is none.  No sequence of
    operations makes an edge that is accepted or rejected pending again. *)
Theorem friend_status_transitions (s : Store) :
  store_wf s →
  (∀ i now,
     let f := (createFriendRequest i now s).1 in
     let s' := (createFriendRequest i now s).2 in
     friend_status f = default Pending (if_status i) ∧
     jget (friend_id f) (friends s) = None ∧
     jget (friend_id f) (friends s') = Some f ∧
     ∀ id, id ≠ friend_id f → jget id (friends s') = jget id (friends s)) ∧
  (∀ id f,
     jget id (friends s) = Some f →
     (acceptFriendRequest id s).1 = Some (set_status Accepted f) ∧
     jget id (friends (acceptFriendRequest id s).2) = Some (set_status Accepted f) ∧
     (rejectFriendRequest id s).1 = Some (set_status Rejected f) ∧
     jget id (friends (rejectFriendRequest id s).2) = Some (set_status Rejected f)) ∧
  (∀ id,
     jget id (friends s) = None →
     acceptFriendRequest id s = (None, s) ∧ rejectFriendRequest id s = (None, s)) ∧
  (∀ ops id f f',
     jget id (friends s) = Some f → friend_status f ≠ Pending →
     jget id (friends (run ops s)) = Some f' → friend_status f' ≠ Pending).
Proof.
  intros Hwf. split_and!.
  - intros i now f s'. simpl. split_and!.
    + done.
    + apply jget_None_keys. wf_open. by eapply map_wf_fresh.
    + apply jget_set_eq.
    + intros id Hne. by apply jget_set_ne.
  - intros id f Hf. unfold acceptFriendRequest, rejectFriendRequest. rewrite Hf. simpl.
    by rewrite !jget_set_eq.
  - intros id Hf. unfold acceptFriendRequest, rejectFriendRequest. by rewrite Hf.
  - intros ops id f f' Hf Hst. apply run_never_pending; [done| |].
    + wf_open. by destruct (map_wf_get _ _ _ _ _ Hwfr Hf).
    + intros f0 Hf0. congruence.
Qed.

Lemma friend_status_transitions_witness :
  store_wf accepted_store ∧
  (rejectFriendRequest 1 accepted_store).1 =
    Some (set_status Rejected (mkFriend 1 2 1 Accepted 30)) ∧
  ∀ ops f', jget 1 (friends (run ops accepted_store)) = Some f' →
            friend_status f' ≠ Pending.
Proof.
  assert (store_wf accepted_store) as Hwf by (apply (bool_decide_unpack _); by vm_compute).
  destruct (friend_status_transitions accepted_store Hwf) as (_ & Hset & _ & Hnever).
  split; [exact Hwf|]. split.
  - apply (Hset 1 (mkFriend 1 2 1 Accepted 30)). reflexivity.
  - intros ops f'. apply (Hnever ops 1 (mkFriend 1 2 1 Accepted 30)); [reflexivity|done].
Defined.

(** C5 (as stated) fails twice: the store creates an edge that is accepted
    from the start when the caller passes that status, and it rejects an
    edge that is accepted already. *)
Lemma friend_status_counterexample :
  ¬ (∀ (s : Store) (i : InsertFriend) (now : Z),
       reachable s → friend_status (createFriendRequest i now s).1 = Pending) ∧
  ¬ (∀ (s : Store) (id : Z) (f : Friend),
       reachable s → jget id (friends s) = Some f → friend_status f ≠ Pending →
       jget id (friends (rejectFriendRequest id s).2) = Some f).
Proof.
  split.
  - intros H.
    specialize (H empty_store (mkInsertFriend 1 2 (Some Accepted)) 10 (ex_intro _ [] eq_refl)).
    discriminate H.
  - intros H.
    specialize (H accepted_store 1 (mkFriend 1 2 1 Accepted 30) (ex_intro _ _ eq_refl)).
    discriminate H; [reflexivity|done].
Qed.

(** ** C7: updating a user *)

(** What [updateUser] merges: the nine profile fields it names.  Every other
    field of the stored record, [lastNameChange] among them, keeps its value
    whatever the update holds. *)
Lemma updateUser_merge id updates user s :
  getUser id s = Some user →
  ∃ user',
    updateUser id updates s = (Some user', with_users (jset id user' (users s)) s) ∧
    getUser id (updateUser id updates s).2 = Some user' ∧
    user_name user' = default (user_name user) (upd_name updates) ∧
    user_bio user' = default (user_bio user) (upd_bio updates) ∧
    user_profileImage user' = default (user_profileImage user) (upd_profileImage updates) ∧
    user_coverImage user' = default (user_coverImage user) (upd_coverImage updates) ∧
    user_coverColor user' = default (user_coverColor user) (upd_coverColor updates) ∧
    user_work user' = default (user_work user) (upd_work updates) ∧
    user_education user' = default (user_education user) (upd_education updates) ∧
    user_currentCity user' = default (user_currentCity user) (upd_currentCity updates) ∧
    user_hometown user' = default (user_hometown user) (upd_hometown updates) ∧
    user_id user' = user_id user ∧
    user_username user' = user_username user ∧
    user_password user' = user_password user ∧
    user_createdAt user' = user_createdAt user ∧
    user_lastNameChange user' = user_lastNameChange user ∧
    user_isBanned user' = user_isBanned user.
Proof.
  intros Hget. unfold updateUser. rewrite Hget. eexists. split; [reflexivity|].
  simpl. split; [apply jget_set_eq|].
  unfold merge_field.
  destruct updates as [? ? ? [?|] [?|] [?|] [?|] [?|] [?|] [?|] [?|] [?|] ? ? ?];
    simpl; by split_and!.
Qed.

Lemma updateUser_absent id updates s :
  getUser id s = None → updateUser id updates s = (None, s).
Proof. intros Hget. unfold updateUser. by rewrite Hget. Qed.

(** C7 (the divergence).  Alice has never changed her name; an update that
    holds a [lastNameChange] timestamp, and nothing else, is applied to her
    record.  The record [updateUser] returns and the record it stores both
    still have no [lastNameChange]: the field is not merged. *)
Theorem updateUser_drops_lastNameChange :
  let s := (createUser demo_alice 10 empty_store).2 in
  let updates :=
    mkUserUpdates None None None None None None None None None None None None None
      (Some (Some 5000)) None in
  user_lastNameChange <$> getUser 1 s = Some None ∧
  user_lastNameChange <$> (updateUser 1 updates s).1 = Some None ∧
  user_lastNameChange <$> getUser 1 (updateUser 1 updates s).2 = Some None.
Proof. by split_and!. Qed.

(** ** C8: looking a friend request up *)

Lemma getFriendRequest_sym a b s : getFriendRequest a b s = getFriendRequest b a s.
Proof. unfold getFriendRequest. apply js_find_ext. intros f. tauto. Qed.

Lemma createFriendRequest_friends i now s :
  store_wf s →
  friends (createFriendRequest i now s).2 =
  friends s ++ [(currentFriendId s, (createFriendRequest i now s).1)].
Proof.
  intros Hwf. wf_open. simpl. apply jset_fresh. by eapply map_wf_fresh.
Qed.

(** C8 (as amended).  [getFriendRequest] does not depend on the order of
    its arguments.  After [createFriendRequest] has created an edge from [a]
    to [b], the lookup finds, in either order, the edge between the two that
    was inserted first: the new edge when there was none before, the older
    edge otherwise. *)
Theorem getFriendRequest_symmetric_first (s : Store) :
  store_wf s →
  (∀ a b, getFriendRequest a b s = getFriendRequest b a s) ∧
  (∀ i now,
     let a := if_userId i in
     let b := if_friendId i in
     let f := (createFriendRequest i now s).1 in
     let s' := (createFriendRequest i now s).2 in
     getFriendRequest b a s' = getFriendRequest a b s' ∧
     getFriendRequest a b s' =
       match getFriendRequest a b s with
       | None => Some f
       | Some older => Some older
       end).
Proof.
  intros Hwf. split; [intros a b; apply getFriendRequest_sym|].
  intros i now a b f s'. split; [apply getFriendRequest_sym|].
  unfold getFriendRequest, s', jvalues.
  rewrite createFriendRequest_friends by done.
  rewrite !js_find_head_filter, fmap_app, filter_app. simpl.
  rewrite filter_cons_True by (left; done). rewrite filter_nil.
  by destruct (filter _ (friends s).*2).
Qed.

Lemma getFriendRequest_symmetric_first_witness :
  store_wf rejected_store ∧
  getFriendRequest 1 2 (createFriendRequest (mkInsertFriend 2 1 None) 40 rejected_store).2 =
  getFriendRequest 2 1 (createFriendRequest (mkInsertFriend 2 1 None) 40 rejected_store).2.
Proof.
  assert (store_wf rejected_store) as Hwf by (apply (bool_decide_unpack _); by vm_compute).
  split; [exact Hwf|].
  destruct (getFriendRequest_symmetric_first rejected_store Hwf) as [_ Hcreate].
  apply (Hcreate (mkInsertFriend 2 1 None) 40).
Defined.

(** C8 (as stated) fails: Bob's new request to Alice is not the edge the
    lookup returns, which is the rejected edge 1. *)
Lemma getFriendRequest_older_counterexample :
  ¬ (∀ (s : Store) (i : InsertFriend) (now : Z),
       reachable s →
       getFriendRequest (if_userId i) (if_friendId i) (createFriendRequest i now s).2 =
       Some (createFriendRequest i now s).1).
Proof.
  intros H.
  specialize (H rejected_store (mkInsertFriend 2 1 None) 40 (ex_intro _ _ eq_refl)).
  discriminate H.
Qed.

(** ** C9: what [deleteUser] does not touch *)

Lemma deletePost_untouched id s : untouched (deletePost id s).2 = untouched s.
Proof. unfold deletePost. by destruct (getPost id s). Qed.

Lemma deletePosts_untouched {A} (f : A → Z) (l : list A) s :
  untouched (foldl (λ st x, (deletePost (f x) st).2) s l) = untouched s.
Proof.
  revert s. induction l as [|x l IH]; intros s; simpl; [done|].
  by rewrite IH, deletePost_untouched.
Qed.

Lemma deleteUser_untouched u s : untouched (deleteUser u s).2 = untouched s.
Proof.
  unfold deleteUser. destruct (getUser u s); [|done]. cbv zeta.
  match goal with
  | |- context [foldl ?f ?s0 ?l] =>
      assert (untouched (foldl f s0 l) = untouched s0) as Hfold
        by apply (deletePosts_untouched (λ post, post_id (pwa_post post)));
      generalize dependent (foldl f s0 l)
  end.
  intros s2 Hfold. unfold untouched in *. simpl in *. done.
Qed.

(** C9.  [deleteUser] leaves the stories and the saved posts as they are, so
    the stories of the deleted user and the user's saved posts stay stored;
    the counters keep their values as well.  Only the user, post, like,
    comment and friend collections can differ afterwards. *)
Theorem deleteUser_frame (u : Z) (s : Store) :
  let s' := (deleteUser u s).2 in
  stories s' = stories s ∧
  savedPosts s' = savedPosts s ∧
  (∀ story, story ∈ jvalues (stories s) → story_userId story = u →
            story ∈ jvalues (stories s')) ∧
  savedPosts s' !! u = savedPosts s !! u ∧
  s' =
  mkStore (users s') (posts s') (likes s') (comments s') (friends s')
    (savedPosts s) (stories s)
    (currentUserId s) (currentPostId s) (currentLikeId s) (currentCommentId s)
    (currentFriendId s) (currentStoryId s).
Proof.
  intros s'. pose proof (deleteUser_untouched u s) as Hfr. fold s' in Hfr.
  unfold untouched in Hfr. destruct s'. simpl in *. simplify_eq.
  split_and!; done.
Qed.

(** ** C10: saved posts *)

Lemma drop_nulls_Some {A} (x : A) l : drop_nulls (Some x :: l) = x :: drop_nulls l.
Proof. done. Qed.

Lemma drop_nulls_None {A} (l : list (option A)) : drop_nulls (None :: l) = drop_nulls l.
Proof. done. Qed.

(** C10.  [getSavedPosts u] lists, in the order of saving, the saved post ids
    of [u] whose post is still stored, each with the post, its author, its
    number of likes and its comments; a saved id whose post has been deleted
    is passed over, and a user without a saved entry gets the empty list.
    The query has a result in every store. *)
Theorem getSavedPosts_existing (u : Z) (s : Store) :
  store_wf s →
  let saved := default [] (savedPosts s !! u) in
  (λ v, post_id (pwa_post v)) <$> getSavedPosts u s =
    filter (λ pid, is_Some (getPost pid s)) saved ∧
  (∀ v, v ∈ getSavedPosts u s →
        post_id (pwa_post v) ∈ saved ∧
        getPost (post_id (pwa_post v)) s = Some (pwa_post v) ∧
        pwa_author v = getUser (post_userId (pwa_post v)) s ∧
        pwa_likes v = length (getLikesByPost (post_id (pwa_post v)) s) ∧
        cwa_comment <$> pwa_comments v = getCommentsByPost (post_id (pwa_post v)) s ∧
        pwa_saved v = Some true) ∧
  (savedPosts s !! u = None → getSavedPosts u s = []).
Proof.
  intros Hwf saved. wf_open. split_and!.
  - unfold getSavedPosts. fold saved.
    induction saved as [|pid l IH]; [done|].
    rewrite fmap_cons, filter_cons. cbv beta.
    destruct (getPost pid s) as [post|] eqn:Hget.
    + rewrite drop_nulls_Some, fmap_cons, decide_True by done.
      cbn [pwa_post]. f_equal; [|exact IH].
      by destruct (map_wf_get _ _ _ _ _ Hwp Hget).
    + rewrite drop_nulls_None, decide_False by (by intros [? ?]). exact IH.
  - intros v. unfold getSavedPosts, drop_nulls. fold saved.
    rewrite list_elem_of_omap. intros [o [[pid [-> Hpid]]%list_elem_of_fmap Ho]].
    simpl in Ho. destruct (getPost pid s) as [post|] eqn:Hget; [|done].
    injection Ho as <-. simpl.
    destruct (map_wf_get _ _ _ _ _ Hwp Hget) as [-> _].
    split_and!; try done.
    rewrite <- list_fmap_compose.
    match goal with |- ?f <$> ?l = _ => transitivity (id <$> l) end.
    { by apply list_fmap_ext. }
    by rewrite list_fmap_id.
  - intros Hnone. unfold getSavedPosts. by rewrite Hnone.
Qed.

Lemma getSavedPosts_existing_witness :
  store_wf saved_store ∧
  default [] (savedPosts saved_store !! 1) = [2; 1] ∧
  (λ v, post_id (pwa_post v)) <$> getSavedPosts 1 saved_store = [1].
Proof.
  assert (store_wf saved_store) as Hwf by (apply (bool_decide_unpack _); by vm_compute).
  split; [exact Hwf|]. split; [reflexivity|].
  destruct (getSavedPosts_existing 1 saved_store Hwf) as [Hids _].
  rewrite Hids. reflexivity.
Defined.

(** * Further properties of the store *)

(** ** More on the map model *)

Lemma jset_same {V} (k : Z) (v : V) (m : jmap V) : jget k m = Some v → jset k v m = m.
Proof.
  induction m as [|[k' v'] m IH]; simpl; [done|].
  destruct (decide (k' = k)) as [->|Hne].
  - by intros [= ->].
  - intros Hget. by rewrite IH.
Qed.

Lemma jset_jset {V} (k : Z) (v v' : V) (m : jmap V) :
  jset k v (jset k v' m) = jset k v m.
Proof.
  induction m as [|[k0 v0] m IH]; simpl.
  - by rewrite decide_True.
  - destruct (decide (k0 = k)) as [->|Hne]; simpl.
    + by rewrite decide_True.
    + by rewrite decide_False, IH.
Qed.

Lemma jget_filter_None {V} (P : Z * V → Prop) `{!∀ kv, Decision (P kv)}
    (m : jmap V) (k : Z) :
  jget k m = None → jget k (filter P m) = None.
Proof.
  rewrite !jget_None_keys. unfold jkeys.
  intros Hnin [kv [-> [_ Hin]%list_elem_of_filter]]%list_elem_of_fmap.
  apply Hnin. by apply list_elem_of_fmap_2.
Qed.

Lemma jget_filter_Some {V} (P : Z * V → Prop) `{!∀ kv, Decision (P kv)}
    (m : jmap V) (k : Z) (v : V) :
  NoDup (jkeys m) → jget k m = Some v → P (k, v) → jget k (filter P m) = Some v.
Proof.
  intros Hnd Hget HP. apply jget_elem_NoDup.
  - unfold jkeys in *. clear Hget HP. induction m as [|kv m IH]; [done|].
    simpl in Hnd. apply NoDup_cons in Hnd as [Hk Hnd].
    rewrite filter_cons. destruct (decide (P kv)); [|by apply IH].
    simpl. apply NoDup_cons. split; [|by apply IH].
    intros [kv' [Heq [_ Hin]%list_elem_of_filter]]%list_elem_of_fmap.
    apply Hk. rewrite Heq. by apply list_elem_of_fmap_2.
  - apply list_elem_of_filter. split; [done|]. by apply jget_Some_elem.
Qed.

Lemma jvalues_filter {V} (P : Z * V → Prop) (Q : V → Prop)
    `{!∀ kv, Decision (P kv), !∀ v, Decision (Q v)} (m : jmap V) :
  (∀ kv, kv ∈ m → P kv ↔ Q kv.2) →
  jvalues (filter P m) = filter Q (jvalues m).
Proof.
  unfold jvalues. induction m as [|kv m IH]; intros HPQ; [done|].
  rewrite fmap_cons, !filter_cons.
  rewrite <- IH by (intros kv' Hin; apply HPQ; by apply list_elem_of_further).
  destruct (decide (P kv)) as [HP|HP], (decide (Q kv.2)) as [HQ|HQ]; try done.
  - destruct HQ. by apply (HPQ kv (list_elem_of_here _ _)).
  - destruct HP. by apply (HPQ kv (list_elem_of_here _ _)).
Qed.

(** Removing the binding of an id removes the record with that id. *)
Lemma jvalues_jdelete {V} (idf : V → Z) next (m : jmap V) (k : Z) :
  map_wf idf next m →
  jvalues (jdelete k m) = filter (λ v, idf v ≠ k) (jvalues m).
Proof.
  intros Hwf. apply jvalues_filter. intros kv Hin.
  destruct (map_wf_elem _ _ _ _ Hwf Hin) as [-> _]. done.
Qed.

(** ** Users *)

(** X1.  A created user gets the id of the counter, which moves on by one,
    is not banned, has no name change on record and is found under its id;
    the other ids keep what they had.  The store does not check the
    username: a lookup by a username that was taken before still returns the
    earlier user, and returns the new user otherwise. *)
Theorem createUser_lookup (i : InsertUser) (now : Z) (s : Store) :
  let user := (createUser i now s).1 in
  let s' := (createUser i now s).2 in
  store_wf s →
  user_id user = currentUserId s ∧
  currentUserId s' = currentUserId s + 1 ∧
  getUser (user_id user) s = None ∧
  getUser (user_id user) s' = Some user ∧
  (∀ id, id ≠ user_id user → getUser id s' = getUser id s) ∧
  jvalues (users s') = jvalues (users s) ++ [user] ∧
  user_isBanned user = false ∧ user_lastNameChange user = None ∧
  user_createdAt user = now ∧
  getUserByUsername (iu_username i) s' =
    match getUserByUsername (iu_username i) s with
    | Some earlier => Some earlier
    | None => Some user
    end.
Proof.
  intros user s' Hwf. wf_open.
  assert (users s' = users s ++ [(currentUserId s, user)]) as Husers.
  { simpl. apply jset_fresh. by eapply map_wf_fresh. }
  split_and!; try done.
  - apply jget_None_keys. by eapply map_wf_fresh.
  - apply jget_set_eq.
  - intros id Hne. by apply jget_set_ne.
  - unfold jvalues. by rewrite Husers, fmap_app.
  - unfold getUserByUsername, jvalues. rewrite Husers, fmap_app.
    rewrite !js_find_head_filter, filter_app. simpl.
    rewrite filter_cons_True by done. rewrite filter_nil.
    by destruct (filter _ (users s).*2).
Qed.

Lemma createUser_lookup_witness :
  store_wf pending_store ∧
  getUserByUsername "alice" (createUser demo_alice 40 pending_store).2 =
  getUserByUsername "alice" pending_store.
Proof.
  assert (store_wf pending_store) as Hwf by (apply (bool_decide_unpack _); by vm_compute).
  split; [exact Hwf|].
  destruct (createUser_lookup demo_alice 40 pending_store Hwf)
    as (_ & _ & _ & _ & _ & _ & _ & _ & _ & Hname).
  etransitivity; [exact Hname|reflexivity].
Defined.

(** X2.  Toggling the ban flag of a stored user twice gives back the store
    as it was, and the second call returns the user's original record;
    toggling an id that is absent returns nothing and changes nothing. *)
Theorem toggleUserBanStatus_twice (id : Z) (s : Store) :
  match getUser id s with
  | Some user =>
      (user_isBanned <$> (toggleUserBanStatus id s).1) = Some (negb (user_isBanned user)) ∧
      (toggleUserBanStatus id (toggleUserBanStatus id s).2).1 = Some user ∧
      (toggleUserBanStatus id (toggleUserBanStatus id s).2).2 = s
  | None => toggleUserBanStatus id s = (None, s)
  end.
Proof.
  destruct (getUser id s) as [user|] eqn:Hget.
  2:{ unfold toggleUserBanStatus. by rewrite Hget. }
  destruct user as [uid uname pw name bio img cover color work edu city home created lnc banned].
  set (user1 := mkUser uid uname pw name bio img cover color work edu city home created lnc
                  (negb banned)).
  assert (toggleUserBanStatus id s = (Some user1, with_users (jset id user1 (users s)) s))
    as Hfirst by (unfold toggleUserBanStatus; by rewrite Hget).
  rewrite Hfirst. cbn [fst snd]. split; [done|].
  assert (getUser id (with_users (jset id user1 (users s)) s) = Some user1) as Hget1
    by apply jget_set_eq.
  unfold toggleUserBanStatus. rewrite Hget1. unfold user1. cbn.
  rewrite negb_involutive. split; [done|].
  unfold with_users. cbn. rewrite jset_jset, jset_same by done. by destruct s.
Qed.

(** ** Posts *)

Lemma sort_insert_fmap {A B} (f : A → B) (cmp1 : A → A → Z) (cmp2 : B → B → Z) x l :
  (∀ a b, cmp2 (f a) (f b) = cmp1 a b) →
  sort_insert cmp2 (f x) (f <$> l) = f <$> sort_insert cmp1 x l.
Proof.
  intros Hcmp. induction l as [|y l IH]; [done|].
  rewrite fmap_cons. simpl. rewrite Hcmp.
  destruct (decide (cmp1 x y ≤ 0)); [done|]. by rewrite IH.
Qed.

Lemma js_sort_fmap {A B} (f : A → B) (cmp1 : A → A → Z) (cmp2 : B → B → Z) l :
  (∀ a b, cmp2 (f a) (f b) = cmp1 a b) →
  js_sort cmp2 (f <$> l) = f <$> js_sort cmp1 l.
Proof.
  intros Hcmp. induction l as [|x l IH]; [done|].
  rewrite fmap_cons. simpl. fold (js_sort cmp2 (f <$> l)) (js_sort cmp1 l).
  rewrite IH. by apply sort_insert_fmap.
Qed.

Lemma filter_fmap_iff {A B} (f : A → B) (P : B → Prop) (Q : A → Prop)
    `{!∀ y, Decision (P y), !∀ x, Decision (Q x)} (l : list A) :
  (∀ x, P (f x) ↔ Q x) → filter P (f <$> l) = f <$> filter Q l.
Proof.
  intros HPQ. induction l as [|x l IH]; [done|].
  rewrite fmap_cons, !filter_cons, IH.
  destruct (decide (P (f x))) as [HP|HP], (decide (Q x)) as [HQ|HQ]; try done.
  - destruct HQ. by apply HPQ.
  - destruct HP. by apply HPQ.
Qed.

Lemma map_wf_ids_keys {V} (idf : V → Z) next (m : jmap V) :
  map_wf idf next m → idf <$> jvalues m = jkeys m.
Proof.
  intros [_ Hf]. unfold jvalues, jkeys. induction Hf as [|kv m [Hid _] Hf IH]; [done|].
  rewrite !fmap_cons. by rewrite Hid, IH.
Qed.

Lemma map_wf_values_inj {V} (idf : V → Z) next (m : jmap V) v1 v2 :
  map_wf idf next m → v1 ∈ jvalues m → v2 ∈ jvalues m → idf v1 = idf v2 → v1 = v2.
Proof.
  intros Hwf [kv1 [-> Hin1]]%list_elem_of_fmap [kv2 [-> Hin2]]%list_elem_of_fmap Heq.
  f_equal. eapply elem_of_NoDup_keys; [by eapply map_wf_NoDup|done|done|].
  destruct (map_wf_elem _ _ _ _ Hwf Hin1) as [<- _].
  by destruct (map_wf_elem _ _ _ _ Hwf Hin2) as [<- _].
Qed.

Lemma jvalues_swap_absent {V} (idf : V → Z) (m : jmap V) k v :
  Forall (λ kv, idf kv.2 = kv.1) m → k ∉ jkeys m →
  (λ x, if decide (idf x = k) then v else x) <$> jvalues m = jvalues m.
Proof.
  unfold jvalues, jkeys. induction 1 as [|kv m Hid Hf IH]; [done|].
  rewrite !fmap_cons, not_elem_of_cons. intros [Hne Hnin].
  rewrite IH by done. f_equal. rewrite decide_False; [done|congruence].
Qed.

(** [set] under a key that is present swaps the record and nothing else. *)
Lemma jvalues_jset_present {V} (idf : V → Z) next (m : jmap V) k v v0 :
  map_wf idf next m → jget k m = Some v0 → idf v = k →
  jvalues (jset k v m) = (λ x, if decide (idf x = k) then v else x) <$> jvalues m.
Proof.
  intros Hwf Hget Hid. unfold jvalues.
  pose proof (map_wf_NoDup _ _ _ Hwf) as Hnd. destruct Hwf as [_ Hf].
  unfold jkeys in Hnd.
  induction m as [|[k' v'] m IH]; [done|].
  simpl in Hnd. apply NoDup_cons in Hnd as [Hk' Hnd].
  apply Forall_cons in Hf as [[Hid' _] Hf]. simpl in Hid'.
  simpl in *. destruct (decide (k' = k)) as [->|Hne].
  - rewrite !fmap_cons. simpl. rewrite decide_True by done. f_equal.
    symmetry. apply (jvalues_swap_absent idf m k v); [|done].
    eapply Forall_impl; [exact Hf|]. by intros kv [? _].
  - rewrite !fmap_cons. simpl. rewrite decide_False by congruence. f_equal. by apply IH.
Qed.

(** X3.  Editing a post replaces its text and nothing else: the call returns
    the post with the new text, a lookup finds it, the other posts are as
    before, and every feed lists the same posts in the same order as before
    the edit.  Editing an id that is absent returns nothing and changes
    nothing. *)
Theorem updatePost_in_place (id : Z) (content : string) (s : Store) :
  store_wf s →
  match getPost id s with
  | Some post =>
      let post' :=
        mkPost (post_id post) (post_userId post) content (post_media post)
          (post_createdAt post) in
      let s' := (updatePost id content s).2 in
      (updatePost id content s).1 = Some post' ∧
      getPost id s' = Some post' ∧
      (∀ id', id' ≠ id → getPost id' s' = getPost id' s) ∧
      (∀ u, (λ v, post_id (pwa_post v)) <$> getPostsForFeed u s' =
            (λ v, post_id (pwa_post v)) <$> getPostsForFeed u s)
  | None => updatePost id content s = (None, s)
  end.
Proof.
  intros Hwf. destruct (getPost id s) as [post|] eqn:Hget.
  2:{ unfold updatePost. by rewrite Hget. }
  intros post'.
  assert (updatePost id content s = (Some post', with_posts (jset id post' (posts s)) s))
    as -> by (unfold updatePost; by rewrite Hget).
  cbn [fst snd]. split_and!.
  - done.
  - apply jget_set_eq.
  - intros id' Hne. by apply jget_set_ne.
  - intros u. wf_open.
    destruct (map_wf_get _ _ _ _ _ Hwp Hget) as [Hid _].
    set (g := λ x : Post,
           if decide (post_id x = id)
           then mkPost (post_id x) (post_userId x) content (post_media x) (post_createdAt x)
           else x).
    assert (jvalues (posts (with_posts (jset id post' (posts s)) s)) = g <$> jvalues (posts s))
      as Hvals.
    { cbn [posts with_posts].
      rewrite (jvalues_jset_present post_id _ _ _ post' _ Hwp Hget Hid).
      apply Forall_fmap_ext_1, Forall_forall. intros x Hx. unfold g.
      destruct (decide (post_id x = id)) as [Hx_id|]; [|done].
      assert (x = post) as ->; [|done].
      eapply (map_wf_values_inj post_id); [done|done| |congruence].
      apply jget_Some_elem in Hget. by apply (list_elem_of_fmap_2 snd) in Hget. }
    rewrite !(list_fmap_compose pwa_post post_id), !getPostsForFeed_posts, Hvals.
    rewrite (filter_fmap_iff g _
               (λ p, post_userId p = u ∨ are_friends s u (post_userId p))).
    2:{ intros x. unfold g, are_friends. cbn [friends with_posts].
        by destruct (decide (post_id x = id)). }
    rewrite (js_sort_fmap g (λ a b, post_createdAt b - post_createdAt a)).
    2:{ intros a b. unfold g.
        by destruct (decide (post_id a = id)), (decide (post_id b = id)). }
    rewrite <- list_fmap_compose. apply list_fmap_ext. intros ? x _. unfold g. simpl.
    by destruct (decide (post_id x = id)).
Qed.

Lemma updatePost_in_place_witness :
  store_wf busy_store ∧
  (λ v, post_id (pwa_post v)) <$> getPostsForFeed 2 (updatePost 1 "edited" busy_store).2 =
  (λ v, post_id (pwa_post v)) <$> getPostsForFeed 2 busy_store.
Proof.
  assert (store_wf busy_store) as Hwf by (apply (bool_decide_unpack _); by vm_compute).
  split; [exact Hwf|].
  pose proof (updatePost_in_place 1 "edited" busy_store Hwf) as H.
  change (getPost 1 busy_store) with (Some (mkPost 1 1 "hello" None 100)) in H.
  cbv zeta in H. destruct H as (_ & _ & _ & Hfeed). apply Hfeed.
Defined.

(** ** Likes *)

Lemma sorted_filter_head {A} (idf : A → Z) (P : A → Prop) `{!∀ x, Decision (P x)}
    (l : list A) (x : A) (rest : list A) :
  StronglySorted (λ a b, idf a < idf b) l → filter P l = x :: rest →
  filter (λ v, idf v ≠ idf x) (filter P l) = rest.
Proof.
  intros Hs Hf. apply (StronglySorted_filter _ P) in Hs. rewrite Hf in *.
  apply StronglySorted_cons in Hs as [Hx _].
  rewrite filter_cons_False by (intros Hne; by apply Hne).
  apply filter_Forall_id. eapply Forall_impl; [exact Hx|]. simpl. lia.
Qed.

(** X4.  [removeLike] deletes one record: the oldest like of the pair.  The
    remaining likes of the pair are the former ones without the first, so a
    pair that had been liked twice is still liked; the likes of every other
    pair stay; without a like of the pair the store is unchanged; and a pair
    with at most one like has none afterwards. *)
Theorem removeLike_first (u p : Z) (s : Store) :
  store_wf s →
  let s' := removeLike u p s in
  likes_of u p s' = tail (likes_of u p s) ∧
  (∀ u' p', (u', p') ≠ (u, p) → likes_of u' p' s' = likes_of u' p' s) ∧
  (getLike u p s = None → s' = s) ∧
  ((length (likes_of u p s) ≤ 1)%nat → getLike u p s' = None).
Proof.
  intros Hwf s'. wf_open.
  assert (likes_of u p s' = tail (likes_of u p s)) as Htail.
  { unfold s', removeLike, getLike. rewrite js_find_head_filter.
    fold (likes_of u p s). destruct (likes_of u p s) as [|l rest] eqn:Hlikes; [done|].
    simpl. unfold likes_of in *. cbn [likes with_likes].
    rewrite (jvalues_jdelete like_id _ _ _ Hwl), list_filter_filter.
    pose proof (sorted_filter_head like_id
                  (λ like, like_userId like = u ∧ like_postId like = p)
                  (jvalues (likes s)) l rest
                  (map_wf_values_sorted _ _ _ Hwl) Hlikes) as Hrest.
    rewrite list_filter_filter in Hrest. rewrite <- Hrest.
    apply list_filter_iff. intros x. tauto. }
  split_and!.
  - done.
  - intros u' p' Hne. unfold s', removeLike, getLike.
    destruct (js_find _ (jvalues (likes s))) as [l|] eqn:Hfind; [|done].
    apply js_find_Some in Hfind as [Hl [Hlu Hlp]].
    unfold likes_of. cbn [likes with_likes].
    rewrite (jvalues_jdelete like_id _ _ _ Hwl), list_filter_filter.
    apply filter_ext_elem. intros x Hx. split; [tauto|]. intros [Hxu Hxp].
    split; [done|]. intros Hid.
    assert (x = l) as -> by by eapply (map_wf_values_inj like_id).
    apply Hne. congruence.
  - intros Hnone. unfold s', removeLike. by rewrite Hnone.
  - intros Hlen. unfold getLike. rewrite js_find_head_filter.
    fold (likes_of u p s'). rewrite Htail.
    destruct (likes_of u p s) as [|l [|l' rest]]; simpl in *; [done|done|lia].
Qed.

Lemma removeLike_first_witness :
  store_wf busy_store ∧ getLike 1 1 (removeLike 1 1 busy_store) = None.
Proof.
  assert (store_wf busy_store) as Hwf by (apply (bool_decide_unpack _); by vm_compute).
  split; [exact Hwf|].
  destruct (removeLike_first 1 1 busy_store Hwf) as (_ & _ & _ & Hnone).
  apply Hnone. vm_compute. lia.
Defined.

(** X5.  Liking a post the user had not liked and then removing the like
    gives back the collection of likes as it was; of the whole store only the
    like counter has moved. *)
Theorem createLike_removeLike (i : InsertLike) (now : Z) (s : Store) :
  store_wf s →
  getLike (il_userId i) (il_postId i) s = None →
  removeLike (il_userId i) (il_postId i) (createLike i now s).2 =
  with_currentLikeId (currentLikeId s + 1) s.
Proof.
  intros Hwf Hnone. pose proof Hwf as Hwf0. wf_open.
  unfold removeLike, getLike. rewrite createLike_likes by done.
  unfold jvalues. rewrite fmap_app, js_find_head_filter, filter_app.
  unfold getLike in Hnone. apply js_find_None in Hnone. unfold jvalues in Hnone.
  rewrite Hnone. cbn [fmap list_fmap snd app]. rewrite filter_cons_True by done.
  cbn [head fst snd createLike like_id].
  unfold jdelete. rewrite filter_app, filter_cons_False by (intros Hne; by apply Hne).
  rewrite filter_nil, app_nil_r, filter_Forall_id.
  - by destruct s.
  - destruct Hwl as [_ Hf]. eapply Forall_impl; [exact Hf|]. simpl. lia.
Qed.

Lemma createLike_removeLike_witness :
  store_wf busy_store ∧
  likes (removeLike 2 2 (createLike (mkInsertLike 2 2) 200 busy_store).2) = likes busy_store.
Proof.
  assert (store_wf busy_store) as Hwf by (apply (bool_decide_unpack _); by vm_compute).
  split; [exact Hwf|].
  exact (f_equal likes
           (createLike_removeLike (mkInsertLike 2 2) 200 busy_store Hwf eq_refl)).
Defined.

(** ** Listings *)

(** Newest first, and by increasing id among equal timestamps. *)
Lemma js_sort_newest_first {A} (timef idf : A → Z) (l : list A) :
  StronglySorted (λ a b, idf a < idf b) l →
  StronglySorted (λ a b, timef b < timef a ∨ (timef a = timef b ∧ idf a < idf b))
    (js_sort (λ a b, timef b - timef a) l).
Proof.
  intros Hs. eapply StronglySorted_impl;
    [|apply (js_sort_stable _) with (before := λ a b, idf a < idf b)].
  - intros a b [Hle Htie]. simpl in *.
    destruct (decide (timef a ≤ timef b)); [|lia].
    right. split; [lia|]. apply Htie. lia.
  - intros a b. simpl. lia.
  - intros a b c. simpl. lia.
  - done.
Qed.

(** Oldest first, and by increasing id among equal timestamps. *)
Lemma js_sort_oldest_first {A} (timef idf : A → Z) (l : list A) :
  StronglySorted (λ a b, idf a < idf b) l →
  StronglySorted (λ a b, timef a < timef b ∨ (timef a = timef b ∧ idf a < idf b))
    (js_sort (λ a b, timef a - timef b) l).
Proof.
  intros Hs. eapply StronglySorted_impl;
    [|apply (js_sort_stable _) with (before := λ a b, idf a < idf b)].
  - intros a b [Hle Htie]. simpl in *.
    destruct (decide (timef b ≤ timef a)); [|lia].
    right. split; [lia|]. apply Htie. lia.
  - intros a b. simpl. lia.
  - intros a b c. simpl. lia.
  - done.
Qed.

Lemma js_find_is_Some {A} (P : A → Prop) `{!∀ x, Decision (P x)} (l : list A) :
  is_Some (js_find P l) ↔ Exists P l.
Proof.
  rewrite Exists_exists. split.
  - intros [x Hx]. apply js_find_Some in Hx. exists x. tauto.
  - intros [x [Hin HP]]. destruct (js_find P l) eqn:Hfind; [done|].
    apply js_find_None in Hfind.
    assert (x ∈ filter P l) as Hx by by apply list_elem_of_filter.
    rewrite Hfind in Hx. by apply elem_of_nil in Hx.
Qed.

(** X6.  The comments of a post come out oldest first, comments with the same
    timestamp by increasing id; they are exactly the stored comments of that
    post, each once. *)
Theorem getCommentsByPost_order (p : Z) (s : Store) :
  store_wf s →
  getCommentsByPost p s ≡ₚ
    filter (λ c, comment_postId c = p) (jvalues (comments s)) ∧
  (∀ c, c ∈ getCommentsByPost p s ↔ c ∈ jvalues (comments s) ∧ comment_postId c = p) ∧
  StronglySorted
    (λ a b, comment_createdAt a < comment_createdAt b ∨
            (comment_createdAt a = comment_createdAt b ∧ comment_id a < comment_id b))
    (getCommentsByPost p s).
Proof.
  intros Hwf. wf_open. unfold getCommentsByPost. split_and!.
  - apply js_sort_perm.
  - intros c. rewrite elem_of_js_sort, list_elem_of_filter. tauto.
  - apply (js_sort_oldest_first comment_createdAt comment_id).
    apply StronglySorted_filter. by eapply map_wf_values_sorted.
Qed.

Lemma getCommentsByPost_order_witness :
  store_wf busy_store ∧
  StronglySorted
    (λ a b, comment_createdAt a < comment_createdAt b ∨
            (comment_createdAt a = comment_createdAt b ∧ comment_id a < comment_id b))
    (getCommentsByPost 1 busy_store).
Proof.
  assert (store_wf busy_store) as Hwf by (apply (bool_decide_unpack _); by vm_compute).
  split; [exact Hwf|].
  apply (getCommentsByPost_order 1 busy_store Hwf).
Defined.

(** X7.  [getPosts] lists every stored post once, newest first, posts with
    the same timestamp by increasing id. *)
Theorem getPosts_order (s : Store) :
  store_wf s →
  getPosts s ≡ₚ jvalues (posts s) ∧
  StronglySorted
    (λ a b, post_createdAt b < post_createdAt a ∨
            (post_createdAt a = post_createdAt b ∧ post_id a < post_id b))
    (getPosts s).
Proof.
  intros Hwf. wf_open. unfold getPosts. split; [apply js_sort_perm|].
  apply (js_sort_newest_first post_createdAt post_id). by eapply map_wf_values_sorted.
Qed.

Lemma getPosts_order_witness :
  store_wf tie_store ∧ getPosts tie_store ≡ₚ jvalues (posts tie_store).
Proof.
  assert (store_wf tie_store) as Hwf by (apply (bool_decide_unpack _); by vm_compute).
  split; [exact Hwf|].
  apply (getPosts_order tie_store Hwf).
Defined.

(** X8.  The profile listing [getPostsByUser u] holds exactly the posts of
    [u], each once, newest first (equal timestamps by increasing id).  Every
    view carries the number of likes and of comments of its post, and its
    [liked] flag tells whether [u], the owner of the profile, likes the post.
    No author record in the listing, of a post or of a comment, carries a
    password. *)
Theorem getPostsByUser_views (u : Z) (s : Store) :
  store_wf s →
  pwa_post <$> getPostsByUser u s ≡ₚ
    filter (λ post, post_userId post = u) (jvalues (posts s)) ∧
  StronglySorted
    (λ a b, post_createdAt b < post_createdAt a ∨
            (post_createdAt a = post_createdAt b ∧ post_id a < post_id b))
    (pwa_post <$> getPostsByUser u s) ∧
  ∀ v, v ∈ getPostsByUser u s →
    post_userId (pwa_post v) = u ∧
    pwa_likes v = length (getLikesByPost (post_id (pwa_post v)) s) ∧
    pwa_commentsCount v = Some (length (getCommentsByPost (post_id (pwa_post v)) s)) ∧
    cwa_comment <$> pwa_comments v = getCommentsByPost (post_id (pwa_post v)) s ∧
    pwa_liked v = Some (bool_decide (is_Some (getLike u (post_id (pwa_post v)) s))) ∧
    (∀ a, pwa_author v = Some a → user_password a = None) ∧
    (∀ c a, c ∈ pwa_comments v → cwa_author c = Some a → user_password a = None).
Proof.
  intros Hwf. wf_open. rewrite getPostsByUser_posts. split_and!.
  - apply js_sort_perm.
  - apply (js_sort_newest_first post_createdAt post_id).
    apply StronglySorted_filter. by eapply map_wf_values_sorted.
  - intros v. unfold getPostsByUser. rewrite list_elem_of_fmap.
    intros [post [-> Hin]]. rewrite elem_of_js_sort in Hin.
    apply list_elem_of_filter in Hin as [Hu _]. cbn [pwa_post pwa_likes pwa_commentsCount
      pwa_comments pwa_liked pwa_author].
    split_and!; try done.
    + rewrite <- list_fmap_compose.
      match goal with |- ?f <$> ?l = _ => transitivity (id <$> l) end.
      { by apply list_fmap_ext. }
      by rewrite list_fmap_id.
    + f_equal. apply bool_decide_ext. unfold getLike, getLikesByPost.
      rewrite js_find_is_Some, !Exists_exists. split.
      * intros [x [[Hp Hx]%list_elem_of_filter Hxu]]. by exists x.
      * intros [x [Hx [Hxu Hp]]]. exists x. split; [|done].
        by apply list_elem_of_filter.
    + intros a. destruct (getUser (post_userId post) s); [|done].
      simpl. by intros [= <-].
    + intros c a [comment [-> _]]%list_elem_of_fmap. simpl.
      destruct (getUser (comment_userId comment) s); [|done].
      simpl. by intros [= <-].
Qed.

Lemma getPostsByUser_views_witness :
  store_wf busy_store ∧
  ∀ v, v ∈ getPostsByUser 1 busy_store →
       ∀ a, pwa_author v = Some a → user_password a = None.
Proof.
  assert (store_wf busy_store) as Hwf by (apply (bool_decide_unpack _); by vm_compute).
  split; [exact Hwf|].
  destruct (getPostsByUser_views 1 busy_store Hwf) as (_ & _ & Hviews).
  intros v Hv. by destruct (Hviews v Hv) as (_ & _ & _ & _ & _ & Hpw & _).
Defined.

(** ** Friends *)

(** The record stored under an id is the only record with that id. *)
Lemma filter_id_singleton {V} (idf : V → Z) next (m : jmap V) k v :
  map_wf idf next m → jget k m = Some v →
  filter (λ x, idf x = k) (jvalues m) = [v].
Proof.
  intros Hwf Hget.
  assert (v ∈ jvalues m) as Hv.
  { apply jget_Some_elem in Hget. by apply (list_elem_of_fmap_2 snd) in Hget. }
  destruct (map_wf_get _ _ _ _ _ Hwf Hget) as [Hid _].
  pose proof (map_wf_values_sorted _ _ _ Hwf) as Hs.
  assert (∀ x, x ∈ jvalues m → idf x = k → x = v) as Huniq.
  { intros x Hx Hxk. eapply (map_wf_values_inj idf); [done..|congruence]. }
  clear Hwf Hget. induction (jvalues m) as [|x l IH]; [by apply elem_of_nil in Hv|].
  apply StronglySorted_cons in Hs as [Hx Hs]. rewrite filter_cons.
  destruct (decide (idf x = k)) as [Hxk|Hxk].
  - rewrite (Huniq x (list_elem_of_here _ _) Hxk). f_equal.
    apply filter_nil_Forall. eapply Forall_impl; [exact Hx|].
    intros y Hy. simpl in Hy. rewrite Hxk in Hy. lia.
  - apply elem_of_cons in Hv as [->|Hv]; [done|].
    apply IH; [done|done|]. intros y Hy. apply Huniq. by apply list_elem_of_further.
Qed.

Lemma acceptFriendRequest_present id f s :
  jget id (friends s) = Some f →
  acceptFriendRequest id s =
  (Some (set_status Accepted f),
   with_friends (jset id (set_status Accepted f) (friends s)) s).
Proof. intros Hf. unfold acceptFriendRequest. by rewrite Hf. Qed.

Lemma rejectFriendRequest_present id f s :
  jget id (friends s) = Some f →
  rejectFriendRequest id s =
  (Some (set_status Rejected f),
   with_friends (jset id (set_status Rejected f) (friends s)) s).
Proof. intros Hf. unfold rejectFriendRequest. by rewrite Hf. Qed.

(** X9.  After [acceptFriendRequest] on a stored edge from [a] to [b], the
    two are friends in both directions: [getFriends a] lists the edge exactly
    once, with the record of [b], and [getFriends b] lists it exactly once,
    with the record of [a]. *)
Theorem acceptFriendRequest_friends (id : Z) (f : Friend) (s : Store) :
  store_wf s → jget id (friends s) = Some f →
  let a := friend_userId f in
  let b := friend_friendId f in
  let s' := (acceptFriendRequest id s).2 in
  are_friends s' a b ∧ are_friends s' b a ∧
  filter (λ fw, friend_id (fwu_friend fw) = id) (getFriends a s') =
    [mkFriendWithUser (set_status Accepted f) (getUser b s)] ∧
  filter (λ fw, friend_id (fwu_friend fw) = id) (getFriends b s') =
    [mkFriendWithUser (set_status Accepted f) (getUser a s)].
Proof.
  intros Hwf Hf a b s'.
  pose proof (acceptFriendRequest_wf id s Hwf) as Hwf'. fold s' in Hwf'.
  assert (jget id (friends s') = Some (set_status Accepted f)) as Hf'.
  { unfold s'. rewrite (acceptFriendRequest_present _ _ _ Hf). apply jget_set_eq. }
  assert (users s' = users s) as Husers.
  { unfold s'. by rewrite (acceptFriendRequest_present _ _ _ Hf). }
  assert (filter (λ x, friend_id x = id) (jvalues (friends s')) = [set_status Accepted f])
    as Hone.
  { destruct Hwf' as (_ & _ & _ & _ & Hwfr' & _). by eapply filter_id_singleton. }
  assert (set_status Accepted f ∈ jvalues (friends s')) as Hin.
  { apply jget_Some_elem in Hf'. by apply (list_elem_of_fmap_2 snd) in Hf'. }
  split_and!.
  - apply Exists_exists. exists (set_status Accepted f).
    split; [done|]. split; [done|]. by left.
  - apply Exists_exists. exists (set_status Accepted f).
    split; [done|]. split; [done|]. by right.
  - unfold getFriends.
    rewrite (filter_fmap_iff _ _ (λ x, friend_id x = id)) by done.
    rewrite list_filter_filter.
    rewrite (list_filter_iff _
               (λ x, (friend_status x = Accepted ∧
                      (friend_userId x = a ∨ friend_friendId x = a)) ∧ friend_id x = id))
      by (intros x; tauto).
    rewrite <- list_filter_filter.
    rewrite Hone, filter_cons_True by (split; [done|by left]).
    rewrite filter_nil. simpl. rewrite decide_True by done.
    unfold getUser. by rewrite Husers.
  - unfold getFriends.
    rewrite (filter_fmap_iff _ _ (λ x, friend_id x = id)) by done.
    rewrite list_filter_filter.
    rewrite (list_filter_iff _
               (λ x, (friend_status x = Accepted ∧
                      (friend_userId x = b ∨ friend_friendId x = b)) ∧ friend_id x = id))
      by (intros x; tauto).
    rewrite <- list_filter_filter.
    rewrite Hone, filter_cons_True by (split; [done|by right]).
    rewrite filter_nil. simpl. unfold getUser. rewrite Husers.
    fold a b. destruct (decide (a = b)) as [->|]; done.
Qed.

Lemma acceptFriendRequest_friends_witness :
  store_wf pending_store ∧
  filter (λ fw, friend_id (fwu_friend fw) = 1)
    (getFriends 2 (acceptFriendRequest 1 pending_store).2) =
  [mkFriendWithUser (mkFriend 1 1 2 Accepted 30) (getUser 1 pending_store)].
Proof.
  assert (store_wf pending_store) as Hwf by (apply (bool_decide_unpack _); by vm_compute).
  split; [exact Hwf|].
  apply (acceptFriendRequest_friends 1 (mkFriend 1 1 2 Pending 30) pending_store Hwf eq_refl).
Defined.

(** X10.  A request created as pending is added at the end of the
    addressee's list of requests, with the record of the requester; once the
    edge of an id has been accepted or rejected, no user's list of requests
    holds an edge of that id. *)
Theorem friend_request_inbox (s : Store) :
  store_wf s →
  (∀ i now,
     default Pending (if_status i) = Pending →
     getFriendRequestsForUser (if_friendId i) (createFriendRequest i now s).2 =
     getFriendRequestsForUser (if_friendId i) s ++
       [mkFriendWithUser (createFriendRequest i now s).1 (getUser (if_userId i) s)]) ∧
  (∀ id u,
     Forall (λ fw, friend_id (fwu_friend fw) ≠ id)
       (getFriendRequestsForUser u (acceptFriendRequest id s).2) ∧
     Forall (λ fw, friend_id (fwu_friend fw) ≠ id)
       (getFriendRequestsForUser u (rejectFriendRequest id s).2)).
Proof.
  intros Hwf. split.
  - intros i now Hst. unfold getFriendRequestsForUser, jvalues.
    rewrite createFriendRequest_friends by done.
    rewrite fmap_app, filter_app, fmap_app. f_equal.
    cbn [fmap list_fmap snd]. rewrite filter_cons_True by (split; [done|exact Hst]).
    by rewrite filter_nil.
  - assert (∀ st s' id, store_wf s' → st ≠ Pending →
              (jget id (friends s) = None → friends s' = friends s) →
              (∀ f, jget id (friends s) = Some f →
                    jget id (friends s') = Some (set_status st f)) →
              ∀ u, Forall (λ fw, friend_id (fwu_friend fw) ≠ id)
                     (getFriendRequestsForUser u s')) as Hgen.
    { intros st s' id Hwf' Hst Hnone Hsome u.
      apply Forall_forall. intros fw. unfold getFriendRequestsForUser.
      rewrite list_elem_of_fmap. intros [x [-> [[_ Hpend] Hx]%list_elem_of_filter]] Hid.
      simpl in Hid. destruct Hwf' as (_ & _ & _ & _ & Hwfr' & _).
      assert (jget id (friends s') = Some x) as Hget.
      { apply jget_elem_NoDup; [by eapply map_wf_NoDup|].
        apply list_elem_of_fmap in Hx as [[k v] [-> Hkv]].
        destruct (map_wf_elem _ _ _ _ Hwfr' Hkv) as [Hk _]. simpl in *. congruence. }
      destruct (jget id (friends s)) as [f|] eqn:Hf.
      - rewrite (Hsome f eq_refl) in Hget. injection Hget as <-. simpl in Hpend. done.
      - rewrite (Hnone eq_refl) in Hget. congruence. }
    intros id u. split.
    + apply (Hgen Accepted); try done.
      * by apply acceptFriendRequest_wf.
      * intros Hf. unfold acceptFriendRequest. by rewrite Hf.
      * intros f Hf. rewrite (acceptFriendRequest_present _ _ _ Hf). apply jget_set_eq.
    + apply (Hgen Rejected); try done.
      * by apply rejectFriendRequest_wf.
      * intros Hf. unfold rejectFriendRequest. by rewrite Hf.
      * intros f Hf. rewrite (rejectFriendRequest_present _ _ _ Hf). apply jget_set_eq.
Qed.

Lemma friend_request_inbox_witness :
  store_wf pending_store ∧
  Forall (λ fw, friend_id (fwu_friend fw) ≠ 1)
    (getFriendRequestsForUser 2 (rejectFriendRequest 1 pending_store).2).
Proof.
  assert (store_wf pending_store) as Hwf by (apply (bool_decide_unpack _); by vm_compute).
  split; [exact Hwf|].
  destruct (friend_request_inbox pending_store Hwf) as [_ Hdone].
  apply (Hdone 1 2).
Defined.

Lemma map_wf_values_NoDup {V} (idf : V → Z) next (m : jmap V) :
  map_wf idf next m → NoDup (jvalues m).
Proof.
  intros Hs%map_wf_values_sorted.
  induction Hs as [|x l Hs IH Hx]; [apply NoDup_nil_2|].
  apply NoDup_cons. split; [|done]. intros Hin.
  rewrite Forall_forall in Hx. specialize (Hx _ Hin). lia.
Qed.

(** X11.  [getFriendSuggestions u] never returns more than five users, never
    returns [u], never returns a user twice, and returns stored users only;
    when fewer than five are returned, every stored user that is neither [u]
    nor a friend of [u] is among them. *)
Theorem getFriendSuggestions_bounds (u : Z) (s : Store) :
  store_wf s →
  (length (getFriendSuggestions u s) ≤ 5)%nat ∧
  NoDup (getFriendSuggestions u s) ∧
  (∀ x, x ∈ getFriendSuggestions u s →
        x ∈ jvalues (users s) ∧ user_id x ≠ u ∧ ¬ are_friends s u (user_id x)) ∧
  ((length (getFriendSuggestions u s) < 5)%nat →
   ∀ x, x ∈ jvalues (users s) → user_id x ≠ u → ¬ are_friends s u (user_id x) →
        x ∈ getFriendSuggestions u s).
Proof.
  intros Hwf. wf_open. unfold getFriendSuggestions.
  set (cands := filter _ (jvalues (users s))).
  assert (∀ x, x ∈ cands ↔
               x ∈ jvalues (users s) ∧ user_id x ≠ u ∧ ¬ are_friends s u (user_id x))
    as Hcands.
  { intros x. unfold cands. rewrite list_elem_of_filter.
    rewrite not_elem_of_union, not_elem_of_singleton, elem_of_list_to_set.
    rewrite suggestion_friend_ids. tauto. }
  assert (NoDup cands) as Hnd.
  { unfold cands. apply NoDup_filter. by eapply map_wf_values_NoDup. }
  split_and!.
  - rewrite length_take. lia.
  - rewrite <- (take_drop 5 cands) in Hnd. by apply NoDup_app in Hnd as [? _].
  - intros x Hx. apply Hcands. rewrite <- (take_drop 5 cands).
    apply elem_of_app. by left.
  - rewrite length_take. intros Hlen x Hx Hne Hnf.
    rewrite take_ge by lia. apply Hcands. done.
Qed.

Lemma getFriendSuggestions_bounds_witness :
  store_wf busy_store ∧ (length (getFriendSuggestions 1 busy_store) ≤ 5)%nat.
Proof.
  assert (store_wf busy_store) as Hwf by (apply (bool_decide_unpack _); by vm_compute).
  split; [exact Hwf|].
  apply (getFriendSuggestions_bounds 1 busy_store Hwf).
Defined.

(** ** Saved posts *)

Lemma saved_of_savePost u p s :
  saved_of u (savePost u p s) =
  (if decide (p ∈ saved_of u s) then saved_of u s else saved_of u s ++ [p]).
Proof.
  unfold savePost, saved_of.
  destruct (decide (p ∈ default [] (savedPosts s !! u))) as [Hin|Hnin]; [done|].
  cbn [savedPosts with_savedPosts]. by rewrite lookup_insert_eq.
Qed.

Lemma savePost_other u u' p s :
  u' ≠ u → savedPosts (savePost u p s) !! u' = savedPosts s !! u'.
Proof.
  intros Hne. unfold savePost. case_decide; [done|].
  cbn [savedPosts with_savedPosts]. by rewrite lookup_insert_ne.
Qed.

Lemma saved_of_savePost_NoDup u p s :
  NoDup (saved_of u s) → NoDup (saved_of u (savePost u p s)).
Proof.
  intros Hnd. rewrite saved_of_savePost. case_decide; [done|].
  apply NoDup_app. split_and!; [done| |apply NoDup_singleton].
  intros x Hx ->%list_elem_of_singleton. done.
Qed.

Lemma saved_of_unsavePost u p s :
  saved_of u (unsavePost u p s) = filter (λ id, id ≠ p) (saved_of u s).
Proof.
  unfold unsavePost, saved_of.
  destruct (savedPosts s !! u) as [l|] eqn:Hl; cbn [savedPosts with_savedPosts].
  - by rewrite lookup_insert_eq.
  - by rewrite Hl.
Qed.

Lemma unsavePost_other u u' p s :
  u' ≠ u → savedPosts (unsavePost u p s) !! u' = savedPosts s !! u'.
Proof.
  intros Hne. unfold unsavePost. destruct (savedPosts s !! u); [|done].
  cbn [savedPosts with_savedPosts]. by rewrite lookup_insert_ne.
Qed.

(** X12.  Saving is adding to a set kept in order of saving: afterwards the
    post is saved, an id that was saved already is not added again (the store
    is unchanged), a new id goes last, a list without repetition stays so,
    saving twice is saving once, and the other users' lists are untouched.
    The store does not look whether the post exists. *)
Theorem savePost_set (u p : Z) (s : Store) :
  let s' := savePost u p s in
  p ∈ saved_of u s' ∧
  saved_of u s' = (if decide (p ∈ saved_of u s) then saved_of u s else saved_of u s ++ [p]) ∧
  (p ∈ saved_of u s → s' = s) ∧
  (NoDup (saved_of u s) → NoDup (saved_of u s')) ∧
  savePost u p s' = s' ∧
  (∀ u', u' ≠ u → savedPosts s' !! u' = savedPosts s !! u').
Proof.
  intros s'. unfold s'.
  assert (p ∈ saved_of u (savePost u p s)) as Hin.
  { rewrite saved_of_savePost. case_decide; [done|].
    apply elem_of_app. right. apply list_elem_of_here. }
  split_and!.
  - done.
  - apply saved_of_savePost.
  - intros Hp. unfold savePost. fold (saved_of u s). by rewrite decide_True.
  - apply saved_of_savePost_NoDup.
  - unfold savePost at 1. fold (saved_of u (savePost u p s)). by rewrite decide_True.
  - intros u' Hne. by apply savePost_other.
Qed.


Lemma exec_savedPosts (s : Store) (op : Op) :
  match op with
  | OSavePost u p => exec s op = savePost u p s
  | OUnsavePost u p => exec s op = unsavePost u p s
  | _ => savedPosts (exec s op) = savedPosts s
  end.
Proof.
  destruct op; simpl; try done.
  - unfold updateUser. by destruct (getUser _ s).
  - pose proof (deleteUser_untouched id s) as Hu. unfold untouched in Hu. congruence.
  - unfold toggleUserBanStatus. by destruct (getUser _ s).
  - unfold updatePost. by destruct (getPost _ s).
  - pose proof (deletePost_untouched id s) as Hu. unfold untouched in Hu. congruence.
  - unfold removeLike. by destruct (getLike _ _ s).
  - unfold acceptFriendRequest. by destruct (jget _ (friends s)).
  - unfold rejectFriendRequest. by destruct (jget _ (friends s)).
Qed.

(** X14.  Whatever calls led to a store, no user's list of saved posts holds
    an id twice. *)
Theorem saved_posts_NoDup (s : Store) (u : Z) :
  reachable s → NoDup (saved_of u s).
Proof.
  intros [ops ->]. unfold run.
  assert (∀ u, NoDup (saved_of u empty_store)) as Hinit by (intros ?; apply NoDup_nil_2).
  revert u. generalize dependent empty_store.
  induction ops as [|op ops IH]; intros s Hs u; simpl; [done|].
  apply IH. intros u'. pose proof (exec_savedPosts s op) as Hop.
  destruct op; try (unfold saved_of; rewrite Hop; apply Hs).
  - rewrite Hop. destruct (decide (u' = userId)) as [->|Hne].
    + by apply saved_of_savePost_NoDup.
    + unfold saved_of. rewrite savePost_other by done. apply Hs.
  - rewrite Hop. destruct (decide (u' = userId)) as [->|Hne].
    + rewrite saved_of_unsavePost. apply NoDup_filter, Hs.
    + unfold saved_of. rewrite unsavePost_other by done. apply Hs.
Qed.

Lemma saved_posts_NoDup_witness : reachable busy_store ∧ NoDup (saved_of 1 busy_store).
Proof.
  assert (reachable busy_store) as Hr by (by eexists).
  split; [exact Hr|]. apply (saved_posts_NoDup busy_store 1 Hr).
Defined.

(** ** Stories *)

(** X15.  [getStories u] at time [now] holds exactly the stored stories of
    [u] and of the friends of [u] that were created less than 24 hours
    (86 400 000 ms) before [now], newest first, equal timestamps by
    increasing id.  A story that is exactly 24 hours old is left out; older
    stories stay stored. *)
Theorem getStories_window (u now : Z) (s : Store) :
  store_wf s →
  (∀ story, story ∈ getStories u now s ↔
     story ∈ jvalues (stories s) ∧
     (story_userId story = u ∨ are_friends s u (story_userId story)) ∧
     now - story_createdAt story < 86400000) ∧
  StronglySorted
    (λ a b, story_createdAt b < story_createdAt a ∨
            (story_createdAt a = story_createdAt b ∧ story_id a < story_id b))
    (getStories u now s).
Proof.
  intros Hwf. wf_open. unfold getStories. split.
  - intros story. rewrite elem_of_js_sort, list_elem_of_filter.
    rewrite elem_of_app, feed_friend_ids, list_elem_of_singleton.
    split; [intros [[[?|?] ?] ?]|intros [? [[?|?] ?]]]; split_and!; try done;
      (by left) || (by right) || lia.
  - apply (js_sort_newest_first story_createdAt story_id).
    apply StronglySorted_filter. by eapply map_wf_values_sorted.
Qed.

Lemma getStories_window_witness :
  store_wf busy_store ∧
  (mkStory 1 1 "sunset.png" 190 ∈ getStories 2 (190 + 86399999) busy_store) ∧
  (mkStory 1 1 "sunset.png" 190 ∉ getStories 2 (190 + 86400000) busy_store).
Proof.
  assert (store_wf busy_store) as Hwf by (apply (bool_decide_unpack _); by vm_compute).
  split; [exact Hwf|].
  split.
  - apply (getStories_window 2 (190 + 86399999) busy_store Hwf).
    split; [vm_compute; apply list_elem_of_here|].
    split; [right; apply (bool_decide_unpack _); by vm_compute|simpl; lia].
  - intros Hin. apply (getStories_window 2 (190 + 86400000) busy_store Hwf) in Hin.
    destruct Hin as (_ & _ & Hlt). simpl in Hlt. lia.
Defined.

(** ** What the cascades leave in place *)

(** X16.  Deleting a post touches nothing but that post, its likes and its
    comments: every other post is still found, with the same likes and the
    same comments, and the users, the friend edges, the stories and the saved
    posts are the same; in particular a saved id of the deleted post stays in
    the lists of saved posts. *)
Theorem deletePost_others (p : Z) (s : Store) :
  store_wf s →
  let s' := (deletePost p s).2 in
  (∀ q, q ≠ p →
        getPost q s' = getPost q s ∧
        getLikesByPost q s' = getLikesByPost q s ∧
        getCommentsByPost q s' = getCommentsByPost q s) ∧
  users s' = users s ∧ friends s' = friends s ∧ stories s' = stories s ∧
  savedPosts s' = savedPosts s.
Proof.
  intros Hwf s'. destruct (getPost p s) as [post|] eqn:Hget.
  2:{ assert (s' = s) as -> by (unfold s', deletePost; by rewrite Hget). done. }
  unfold s'. rewrite (deletePost_present _ _ _ Hwf Hget). wf_open. cbn [snd].
  split_and!; try done.
  intros q Hne. split_and!.
  - by apply jget_delete_ne.
  - unfold getLikesByPost. cbn [likes with_likes with_comments].
    rewrite (jvalues_filter _ (λ l, like_postId l ≠ p)) by done.
    rewrite list_filter_filter. apply list_filter_iff. intros x.
    split; [tauto|]. intros ->. done.
  - unfold getCommentsByPost. cbn [comments with_comments]. f_equal.
    rewrite (jvalues_filter _ (λ c, comment_postId c ≠ p)) by done.
    rewrite list_filter_filter. apply list_filter_iff. intros x.
    split; [tauto|]. intros ->. done.
Qed.

Lemma deletePost_others_witness :
  store_wf busy_store ∧
  getLikesByPost 2 (deletePost 1 busy_store).2 = getLikesByPost 2 busy_store.
Proof.
  assert (store_wf busy_store) as Hwf by (apply (bool_decide_unpack _); by vm_compute).
  split; [exact Hwf|].
  destruct (deletePost_others 1 busy_store Hwf) as [Hq _].
  by apply Hq.
Defined.

(** X17.  Deleting a stored user [u] removes nothing but what the cascade
    names.  The other users are found as before; the posts left are the
    posts of the other users; the likes and comments left are those written
    by others on posts that are not posts of [u]; the friend edges left are
    those that do not name [u]; all in their former order. *)
Theorem deleteUser_remainder (u : Z) (s : Store) :
  store_wf s → is_Some (getUser u s) →
  let s' := (deleteUser u s).2 in
  (∀ v, v ≠ u → getUser v s' = getUser v s) ∧
  jvalues (posts s') = filter (λ post, post_userId post ≠ u) (jvalues (posts s)) ∧
  jvalues (likes s') =
    filter (λ l, like_userId l ≠ u ∧ post_userId <$> getPost (like_postId l) s ≠ Some u)
      (jvalues (likes s)) ∧
  jvalues (comments s') =
    filter (λ c, comment_userId c ≠ u ∧
                 post_userId <$> getPost (comment_postId c) s ≠ Some u)
      (jvalues (comments s)) ∧
  jvalues (friends s') =
    filter (λ f, friend_userId f ≠ u ∧ friend_friendId f ≠ u) (jvalues (friends s)).
Proof.
  intros Hwf [user Hget] s'. unfold s'.
  rewrite (deleteUser_present _ _ _ Hwf Hget). cbn [snd].
  assert (∀ pid, pid ∉ post_ids_of u s ↔ post_userId <$> getPost pid s ≠ Some u) as Hpids.
  { intros pid. rewrite (elem_of_post_ids_of _ _ _ Hwf). split.
    - intros Hno Heq. apply Hno. destruct (getPost pid s) as [post|]; [|done].
      exists post. split; [done|]. simpl in Heq. congruence.
    - intros Hne [post [Hp Hu]]. apply Hne. rewrite Hp. simpl. by rewrite Hu. }
  wf_open. split_and!.
  - intros v Hne. by apply jget_delete_ne.
  - cbn [posts with_posts with_likes with_comments with_friends].
    apply jvalues_filter. intros kv Hin.
    destruct (map_wf_elem _ _ _ _ Hwp Hin) as [Hid _].
    rewrite Hpids. rewrite <- Hid.
    assert (getPost (post_id kv.2) s = Some kv.2) as ->.
    { unfold getPost. apply jget_elem_NoDup; [by eapply map_wf_NoDup|].
      rewrite Hid. by destruct kv. }
    simpl. split; [intros Hne Heq; apply Hne; by rewrite Heq|congruence].
  - cbn [likes with_likes with_comments with_friends].
    rewrite (jvalues_filter _ (λ l, like_userId l ≠ u)) by done.
    rewrite (jvalues_filter _ (λ l, like_postId l ∉ post_ids_of u s)) by done.
    rewrite list_filter_filter. apply list_filter_iff. intros x. by rewrite Hpids.
  - cbn [comments with_comments with_friends].
    rewrite (jvalues_filter _ (λ c, comment_userId c ≠ u)) by done.
    rewrite (jvalues_filter _ (λ c, comment_postId c ∉ post_ids_of u s)) by done.
    rewrite list_filter_filter. apply list_filter_iff. intros x. by rewrite Hpids.
  - cbn [friends with_friends].
    rewrite (jvalues_filter _ (λ f, ¬ (friend_userId f = u ∨ friend_friendId f = u)))
      by done.
    apply list_filter_iff. intros x. tauto.
Qed.

Lemma deleteUser_remainder_witness :
  store_wf busy_store ∧ is_Some (getUser 1 busy_store) ∧
  post_id <$> jvalues (posts (deleteUser 1 busy_store).2) = [2].
Proof.
  assert (store_wf busy_store) as Hwf by (apply (bool_decide_unpack _); by vm_compute).
  assert (is_Some (getUser 1 busy_store)) as Hu by (by eexists).
  split; [exact Hwf|]. split; [exact Hu|].
  destruct (deleteUser_remainder 1 busy_store Hwf Hu) as (_ & -> & _). reflexivity.
Defined.

(** ** Ids *)

Lemma jget_jset_dead {V} (m : jmap V) (k id : Z) (v : V) :
  (k ≠ id ∨ is_Some (jget k m)) → jget id m = None → jget id (jset k v m) = None.
Proof.
  intros Hk Hnone. rewrite jget_set_ne; [done|].
  intros ->. destruct Hk as [?|[? ?]]; congruence.
Qed.

Ltac dead_id :=
  cbn [users posts likes comments friends stories
       currentUserId currentPostId currentLikeId currentCommentId currentFriendId
       currentStoryId
       with_users with_posts with_likes with_comments with_friends with_stories
       with_savedPosts
       with_currentUserId with_currentPostId with_currentLikeId with_currentCommentId
       with_currentFriendId with_currentStoryId fst snd];
  split_and!; try lia; intros;
  first [ done
        | apply jget_jset_dead; [left; lia|done]
        | apply jget_jset_dead; [right; by eexists|done]
        | repeat apply jget_filter_None; done ].

(** One call never stores anything under an id that has been handed out and
    is not in use, and never moves a counter back. *)
Lemma exec_dead_ids (s : Store) (op : Op) (id : Z) :
  store_wf s →
  let s' := exec s op in
  (currentUserId s ≤ currentUserId s' ∧
   (id < currentUserId s → jget id (users s) = None → jget id (users s') = None)) ∧
  (currentPostId s ≤ currentPostId s' ∧
   (id < currentPostId s → jget id (posts s) = None → jget id (posts s') = None)) ∧
  (currentLikeId s ≤ currentLikeId s' ∧
   (id < currentLikeId s → jget id (likes s) = None → jget id (likes s') = None)) ∧
  (currentCommentId s ≤ currentCommentId s' ∧
   (id < currentCommentId s → jget id (comments s) = None →
    jget id (comments s') = None)) ∧
  (currentFriendId s ≤ currentFriendId s' ∧
   (id < currentFriendId s → jget id (friends s) = None → jget id (friends s') = None)) ∧
  (currentStoryId s ≤ currentStoryId s' ∧
   (id < currentStoryId s → jget id (stories s) = None → jget id (stories s') = None)).
Proof.
  intros Hwf s'. unfold s'. clear s'. destruct op; unfold exec.
  - unfold createUser. dead_id.
  - unfold updateUser, getUser. destruct (jget id0 (users s)) eqn:?; dead_id.
  - destruct (getUser id0 s) as [user|] eqn:Hget.
    + rewrite (deleteUser_present _ _ _ Hwf Hget). unfold jdelete. dead_id.
    + unfold deleteUser. rewrite Hget. dead_id.
  - unfold toggleUserBanStatus, getUser. destruct (jget id0 (users s)) eqn:?; dead_id.
  - unfold createPost. dead_id.
  - unfold updatePost, getPost. destruct (jget id0 (posts s)) eqn:?; dead_id.
  - destruct (getPost id0 s) as [post|] eqn:Hget.
    + rewrite (deletePost_present _ _ _ Hwf Hget). unfold jdelete. dead_id.
    + unfold deletePost. rewrite Hget. dead_id.
  - unfold createLike. dead_id.
  - unfold removeLike. destruct (getLike userId postId s); unfold jdelete; dead_id.
  - unfold createComment. dead_id.
  - unfold createFriendRequest. dead_id.
  - unfold acceptFriendRequest. destruct (jget id0 (friends s)) eqn:?; dead_id.
  - unfold rejectFriendRequest. destruct (jget id0 (friends s)) eqn:?; dead_id.
  - unfold savePost. case_decide; dead_id.
  - unfold unsavePost. destruct (savedPosts s !! userId); dead_id.
  - unfold createStory. dead_id.
Qed.

(** X18.  Ids are not reused.  In any sequence of calls no counter goes back,
    and an id below a counter under which the collection holds nothing (the
    id of a deleted record) holds nothing ever after: a later lookup of a
    deleted user, post, like, comment, friend edge or story cannot find a
    newer record. *)
Theorem ids_never_reused (ops : list Op) (s : Store) (id : Z) :
  store_wf s →
  let s' := run ops s in
  (currentUserId s ≤ currentUserId s' ∧
   (id < currentUserId s → jget id (users s) = None → jget id (users s') = None)) ∧
  (currentPostId s ≤ currentPostId s' ∧
   (id < currentPostId s → jget id (posts s) = None → jget id (posts s') = None)) ∧
  (currentLikeId s ≤ currentLikeId s' ∧
   (id < currentLikeId s → jget id (likes s) = None → jget id (likes s') = None)) ∧
  (currentCommentId s ≤ currentCommentId s' ∧
   (id < currentCommentId s → jget id (comments s) = None →
    jget id (comments s') = None)) ∧
  (currentFriendId s ≤ currentFriendId s' ∧
   (id < currentFriendId s → jget id (friends s) = None → jget id (friends s') = None)) ∧
  (currentStoryId s ≤ currentStoryId s' ∧
   (id < currentStoryId s → jget id (stories s) = None → jget id (stories s') = None)).
Proof.
  revert s. induction ops as [|op ops IH]; intros s Hwf; simpl.
  { repeat split; (lia || done). }
  pose proof (exec_dead_ids s op id Hwf) as Hstep.
  pose proof (IH (exec s op) (exec_wf s op Hwf)) as Hrest.
  simpl in Hstep, Hrest. fold (run ops (exec s op)) in *.
  destruct Hstep as ((? & ?) & (? & ?) & (? & ?) & (? & ?) & (? & ?) & (? & ?)).
  destruct Hrest as ((? & ?) & (? & ?) & (? & ?) & (? & ?) & (? & ?) & (? & ?)).
  repeat split; try lia; intros; auto with lia.
Qed.

Lemma ids_never_reused_witness :
  store_wf saved_store ∧
  jget 2 (posts (run [OCreatePost (mkInsertPost 2 "again" None) 300] saved_store)) = None.
Proof.
  assert (store_wf saved_store) as Hwf by (apply (bool_decide_unpack _); by vm_compute).
  split; [exact Hwf|].
  destruct (ids_never_reused [OCreatePost (mkInsertPost 2 "again" None) 300]
              saved_store 2 Hwf) as (_ & (_ & Hpost) & _).
  apply Hpost; [vm_compute; reflexivity|reflexivity].
Defined.

(** * The routes that guard the store *)

Lemma filter_sublist_mono {A} (P : A → Prop) `{!∀ x, Decision (P x)} (l1 l2 : list A) :
  l1 `sublist_of` l2 → filter P l1 `sublist_of` filter P l2.
Proof.
  induction 1 as [|x l1 l2 Hs IH|x l1 l2 Hs IH]; [done|..].
  - rewrite !filter_cons. destruct (decide (P x)); [by constructor|done].
  - rewrite filter_cons. destruct (decide (P x)); [by constructor|done].
Qed.

Lemma jvalues_filter_sublist {V} (P : Z * V → Prop) `{!∀ kv, Decision (P kv)}
    (m : jmap V) :
  jvalues (filter P m) `sublist_of` jvalues m.
Proof. unfold jvalues. apply fmap_sublist, sublist_filter. Qed.

(** Apart from [createLike], an operation of the store leaves the likes as
    they are or takes some away. *)
Lemma exec_likes_sublist (s : Store) (op : Op) :
  store_wf s → (∀ i now, op ≠ OCreateLike i now) →
  jvalues (likes (exec s op)) `sublist_of` jvalues (likes s).
Proof.
  intros Hwf Hop. destruct op; unfold exec; try done.
  - unfold updateUser. by destruct (getUser _ s).
  - destruct (getUser id s) as [user|] eqn:Hget.
    + rewrite (deleteUser_present _ _ _ Hwf Hget). cbn [snd likes with_likes
        with_comments with_friends].
      etransitivity; apply jvalues_filter_sublist.
    + unfold deleteUser. by rewrite Hget.
  - unfold toggleUserBanStatus. by destruct (getUser _ s).
  - unfold updatePost. by destruct (getPost _ s).
  - destruct (getPost id s) as [post|] eqn:Hget.
    + rewrite (deletePost_present _ _ _ Hwf Hget). cbn [snd likes with_likes with_comments].
      apply jvalues_filter_sublist.
    + unfold deletePost. by rewrite Hget.
  - by destruct (Hop insertLike now).
  - unfold removeLike. destruct (getLike _ _ s); [|done].
    cbn [likes with_likes]. apply jvalues_filter_sublist.
  - unfold acceptFriendRequest. by destruct (jget _ (friends s)).
  - unfold rejectFriendRequest. by destruct (jget _ (friends s)).
  - unfold savePost. by case_decide.
  - unfold unsavePost. by destruct (savedPosts s !! _).
Qed.

Lemma route_like_cases userId postId now s :
  (route_like userId postId now s).2 = s ∨
  (getLike userId postId s = None ∧ is_Some (getPost postId s) ∧
   route_like userId postId now s =
   (201,
    Some ((createLike (parse_like userId postId) now s).1,
          length (getLikesByPost postId (createLike (parse_like userId postId) now s).2)),
    (createLike (parse_like userId postId) now s).2)).
Proof.
  unfold route_like. destruct (getPost postId s); [|by left].
  destruct (getLike userId postId s); [by left|]. right. by split_and!.
Qed.


Lemma createLike_values i now s :
  store_wf s →
  jvalues (likes (createLike i now s).2) = jvalues (likes s) ++ [(createLike i now s).1].
Proof.
  intros Hwf. unfold jvalues. rewrite createLike_likes by done. by rewrite fmap_app.
Qed.

(** The like route keeps "at most one like of a user on a post". *)
Lemma route_like_keeps_unique userId postId now s :
  store_wf s →
  (∀ u p, (length (likes_of u p s) ≤ 1)%nat) →
  ∀ u p, (length (likes_of u p (route_like userId postId now s).2) ≤ 1)%nat.
Proof.
  intros Hwf Hone u p.
  destruct (route_like_cases userId postId now s) as [->|(Hnone & _ & ->)]; [done|].
  cbn [snd]. unfold likes_of. rewrite createLike_values, filter_app by done.
  rewrite length_app. specialize (Hone u p). unfold likes_of in Hone.
  rewrite filter_cons. destruct (decide _) as [[Hu Hp]|_]; simpl in *; [|lia].
  subst u p. unfold getLike in Hnone. apply js_find_None in Hnone.
  rewrite Hnone. simpl. lia.
Qed.



(** X20.  As long as likes are created through the like route only, the
    store never holds two likes of one user on one post, whatever other
    operations of the store are called in between. *)
Theorem likes_unique_through_route (calls : list Call) (u p : Z) :
  Forall (λ c, ∀ i now, c ≠ CStore (OCreateLike i now)) calls →
  (length (likes_of u p (foldl call empty_store calls)) ≤ 1)%nat.
Proof.
  intros Hcalls.
  assert (store_wf empty_store ∧ ∀ u p, (length (likes_of u p empty_store) ≤ 1)%nat)
    as Hinv by (split; [apply empty_store_wf|intros; simpl; lia]).
  revert u p. generalize dependent empty_store.
  induction Hcalls as [|c calls Hc Hcalls IH]; intros s [Hwf Hone] u p; simpl; [done|].
  apply IH. destruct c as [userId postId now|userId friendId now|op]; simpl.
  - split; [|by apply route_like_keeps_unique].
    destruct (route_like_cases userId postId now s) as [->|(_ & _ & ->)]; [done|].
    by apply createLike_wf.
  - unfold route_friend_request. case_decide; [done|].
    destruct (getUser friendId s); [|done].
    destruct (getFriendRequest userId friendId s); [done|].
    split; [by apply createFriendRequest_wf|done].
  - split; [by apply exec_wf|]. intros u' p'.
    etransitivity; [|apply (Hone u' p')]. apply sublist_length.
    unfold likes_of. apply filter_sublist_mono, exec_likes_sublist; [done|].
    intros i now ->. by apply (Hc i now).
Qed.

Lemma likes_unique_through_route_witness :
  Forall (λ c, ∀ i now, c ≠ CStore (OCreateLike i now))
    [CStore (OCreatePost (mkInsertPost 1 "hello" None) 10); CLike 2 1 20; CLike 2 1 30] ∧
  (length (likes_of 2 1
             (foldl call empty_store
                [CStore (OCreatePost (mkInsertPost 1 "hello" None) 10);
                 CLike 2 1 20; CLike 2 1 30])) ≤ 1)%nat.
Proof.
  assert (Forall (λ c, ∀ i now, c ≠ CStore (OCreateLike i now))
            [CStore (OCreatePost (mkInsertPost 1 "hello" None) 10);
             CLike 2 1 20; CLike 2 1 30]) as Hcalls
    by (repeat constructor; intros; discriminate).
  split; [exact Hcalls|].
  apply (likes_unique_through_route _ 2 1 Hcalls).
Defined.

Lemma has_edge_getFriendRequest a b s :
  has_edge s a b ↔ is_Some (getFriendRequest a b s).
Proof. unfold has_edge, getFriendRequest. by rewrite js_find_is_Some. Qed.

Lemma jvalues_set_status (st : FriendStatus) (id : Z) (f : Friend) (s : Store) :
  store_wf s → jget id (friends s) = Some f →
  jvalues (jset id (set_status st f) (friends s)) =
  (λ x, if decide (friend_id x = id) then set_status st x else x) <$> jvalues (friends s).
Proof.
  intros Hwf Hget. wf_open. destruct (map_wf_get _ _ _ _ _ Hwfr Hget) as [Hid _].
  rewrite (jvalues_jset_present friend_id _ _ _ (set_status st f) _ Hwfr Hget Hid).
  apply Forall_fmap_ext_1, Forall_forall. intros x Hx.
  destruct (decide (friend_id x = id)) as [Hx_id|]; [|done].
  assert (x = f) as ->; [|done].
  eapply (map_wf_values_inj friend_id); [done|done| |congruence].
  apply jget_Some_elem in Hget. by apply (list_elem_of_fmap_2 snd) in Hget.
Qed.

(** Apart from [createFriendRequest], an operation of the store leaves the
    edges as they are, takes some away, or sets the status of one. *)
Lemma exec_friends_shape (s : Store) (op : Op) :
  store_wf s → (∀ i now, op ≠ OCreateFriendRequest i now) →
  jvalues (friends (exec s op)) `sublist_of` jvalues (friends s) ∨
  ∃ id st,
    jvalues (friends (exec s op)) =
    (λ x, if decide (friend_id x = id) then set_status st x else x) <$> jvalues (friends s).
Proof.
  intros Hwf Hop. destruct op; unfold exec; try (by left).
  - left. unfold updateUser. by destruct (getUser _ s).
  - left. destruct (getUser id s) as [user|] eqn:Hget.
    + rewrite (deleteUser_present _ _ _ Hwf Hget). cbn [snd friends with_friends].
      apply jvalues_filter_sublist.
    + unfold deleteUser. by rewrite Hget.
  - left. unfold toggleUserBanStatus. by destruct (getUser _ s).
  - left. unfold updatePost. by destruct (getPost _ s).
  - left. by destruct (deletePost_friends id s) as [-> _].
  - left. unfold removeLike. by destruct (getLike _ _ s).
  - by destruct (Hop insertFriend now).
  - destruct (jget id (friends s)) as [f|] eqn:Hf.
    + right. exists id, Accepted. rewrite (acceptFriendRequest_present _ _ _ Hf).
      by apply jvalues_set_status.
    + left. unfold acceptFriendRequest. by rewrite Hf.
  - destruct (jget id (friends s)) as [f|] eqn:Hf.
    + right. exists id, Rejected. rewrite (rejectFriendRequest_present _ _ _ Hf).
      by apply jvalues_set_status.
    + left. unfold rejectFriendRequest. by rewrite Hf.
  - left. unfold savePost. by case_decide.
  - left. unfold unsavePost. by destruct (savedPosts s !! _).
Qed.

Lemma route_friend_request_created userId friendId now s :
  userId ≠ friendId → is_Some (getUser friendId s) →
  getFriendRequest userId friendId s = None →
  route_friend_request userId friendId now s =
  (201, Some (createFriendRequest (parse_friend userId friendId Pending) now s).1,
   (createFriendRequest (parse_friend userId friendId Pending) now s).2).
Proof.
  intros Hne [user Huser] Hnone. unfold route_friend_request.
  rewrite decide_False by done. by rewrite Huser, Hnone.
Qed.

Lemma route_friend_request_cases userId friendId now s :
  (route_friend_request userId friendId now s).2 = s ∨
  (userId ≠ friendId ∧ is_Some (getUser friendId s) ∧
   getFriendRequest userId friendId s = None ∧
   (route_friend_request userId friendId now s).2 =
   (createFriendRequest (parse_friend userId friendId Pending) now s).2).
Proof.
  unfold route_friend_request. case_decide; [by left|].
  destruct (getUser friendId s); [|by left].
  destruct (getFriendRequest userId friendId s); [by left|]. right. by split_and!.
Qed.

Lemma edges_between_sym a b s : edges_between a b s = edges_between b a s.
Proof. unfold edges_between. apply list_filter_iff. intros f. apply joins_sym. Qed.

Lemma edges_between_created userId friendId now s a b :
  store_wf s →
  edges_between a b (createFriendRequest (parse_friend userId friendId Pending) now s).2 =
  edges_between a b s ++
    (if decide (joins a b (createFriendRequest (parse_friend userId friendId Pending) now s).1)
     then [(createFriendRequest (parse_friend userId friendId Pending) now s).1] else []).
Proof.
  intros Hwf. unfold edges_between, jvalues.
  rewrite createFriendRequest_friends by done.
  by rewrite fmap_app, filter_app.
Qed.

Lemma edges_between_nil a b s : getFriendRequest a b s = None → edges_between a b s = [].
Proof.
  unfold getFriendRequest. intros Hnone%js_find_None.
  unfold edges_between. apply filter_nil_Forall, Forall_forall. intros f Hf Hj.
  exact (filter_nil_not_elem_of _ _ _ Hnone Hj Hf).
Qed.

Lemma getFriendRequest_head a b s : getFriendRequest a b s = head (edges_between a b s).
Proof.
  unfold getFriendRequest, edges_between.
  rewrite (js_find_ext _ (joins a b)) by done. apply js_find_head_filter.
Qed.

(** X21.  The friend-request route refuses a request to oneself (400), to a
    user that is not stored (404) and between two users that an edge joins
    already, in either direction and in any state (400), each without a
    change.  Otherwise it answers 201 with a new pending edge, which is then
    the only edge between the two and is found by [getFriendRequest] in both
    orders, so that the request in the opposite direction is refused. *)
Theorem route_friend_request_guard (userId friendId now : Z) (s : Store) :
  store_wf s →
  let r := route_friend_request userId friendId now s in
  (userId = friendId → r = (400, None, s)) ∧
  (userId ≠ friendId → getUser friendId s = None → r = (404, None, s)) ∧
  (userId ≠ friendId → is_Some (getUser friendId s) → has_edge s userId friendId →
   r = (400, None, s)) ∧
  (userId ≠ friendId → is_Some (getUser friendId s) → ¬ has_edge s userId friendId →
   ∃ f,
     r.1 = (201, Some f) ∧
     friend_status f = Pending ∧ friend_userId f = userId ∧ friend_friendId f = friendId ∧
     getFriendRequest userId friendId r.2 = Some f ∧
     getFriendRequest friendId userId r.2 = Some f ∧
     edges_between userId friendId r.2 = [f] ∧
     ∀ now', (route_friend_request friendId userId now' r.2).2 = r.2 ∧
             (route_friend_request friendId userId now' r.2).1.1 ≠ 201).
Proof.
  intros Hwf r. unfold r. clear r. split_and!.
  - intros Heq. unfold route_friend_request. by rewrite decide_True.
  - intros Hne Hnone. unfold route_friend_request.
    rewrite decide_False by done. by rewrite Hnone.
  - intros Hne [user Huser] [e He]%has_edge_getFriendRequest.
    unfold route_friend_request. rewrite decide_False by done. by rewrite Huser, He.
  - intros Hne Huser Hno.
    assert (getFriendRequest userId friendId s = None) as Hnone.
    { destruct (getFriendRequest userId friendId s) eqn:He; [|done].
      destruct Hno. apply has_edge_getFriendRequest. by rewrite He. }
    rewrite (route_friend_request_created _ _ now _ Hne Huser Hnone).
    set (f := (createFriendRequest (parse_friend userId friendId Pending) now s).1).
    set (s' := (createFriendRequest (parse_friend userId friendId Pending) now s).2).
    exists f. cbn [fst snd].
    assert (edges_between userId friendId s' = [f]) as Hedges.
    { unfold s'. rewrite edges_between_created by done. fold f.
      rewrite decide_True by (by left).
      by rewrite (edges_between_nil _ _ _ Hnone). }
    assert (getFriendRequest userId friendId s' = Some f) as Hget.
    { by rewrite getFriendRequest_head, Hedges. }
    split_and!; try done.
    + by rewrite getFriendRequest_sym.
    + intros now'. unfold route_friend_request.
      rewrite decide_False by done.
      destruct (getUser userId s'); [|done].
      by rewrite getFriendRequest_sym, Hget.
Qed.

Lemma route_friend_request_guard_witness :
  store_wf pending_store ∧ route_friend_request 2 1 50 pending_store = (400, None, pending_store).
Proof.
  assert (store_wf pending_store) as Hwf by (apply (bool_decide_unpack _); by vm_compute).
  split; [exact Hwf|].
  destruct (route_friend_request_guard 2 1 50 pending_store Hwf) as (_ & _ & Hdup & _).
  apply Hdup; [done|by eexists|].
  apply (bool_decide_unpack _). by vm_compute.
Defined.

(** X22.  As long as edges are created through the friend-request route
    only, at most one edge joins any two users, in whatever direction and
    state, and no edge joins a user to itself, whatever other operations of
    the store (accepting, rejecting, deleting users) are called in between. *)
Theorem friend_edges_unique_through_route (calls : list Call) (a b : Z) :
  Forall (λ c, ∀ i now, c ≠ CStore (OCreateFriendRequest i now)) calls →
  let s := foldl call empty_store calls in
  (length (edges_between a b s) ≤ 1)%nat ∧
  Forall (λ f, friend_userId f ≠ friend_friendId f) (jvalues (friends s)).
Proof.
  intros Hcalls s. unfold s. clear s.
  assert (store_wf empty_store ∧
          (∀ a b, (length (edges_between a b empty_store) ≤ 1)%nat) ∧
          Forall (λ f, friend_userId f ≠ friend_friendId f) (jvalues (friends empty_store)))
    as Hinv by (split_and!; [apply empty_store_wf|intros; simpl; lia|constructor]).
  assert (∀ s0,
            store_wf s0 ∧ (∀ a b, (length (edges_between a b s0) ≤ 1)%nat) ∧
            Forall (λ f, friend_userId f ≠ friend_friendId f) (jvalues (friends s0)) →
            (length (edges_between a b (foldl call s0 calls)) ≤ 1)%nat ∧
            Forall (λ f, friend_userId f ≠ friend_friendId f)
              (jvalues (friends (foldl call s0 calls)))) as Hgen; [|by apply Hgen].
  clear Hinv. revert a b.
  induction Hcalls as [|c calls Hc Hcalls IH]; intros a b s (Hwf & Hone & Hself); simpl.
  { split; [apply Hone|done]. }
  apply IH. destruct c as [userId postId now|userId friendId now|op]; simpl.
  - destruct (route_like_cases userId postId now s) as [->|(_ & _ & ->)]; [done|].
    split_and!; [by apply createLike_wf|done|done].
  - destruct (route_friend_request_cases userId friendId now s)
      as [->|(Hne & _ & Hnone & ->)]; [done|].
    split_and!.
    + by apply createFriendRequest_wf.
    + intros a' b'. rewrite edges_between_created by done.
      rewrite length_app. specialize (Hone a' b').
      destruct (decide _) as [Hj|_]; simpl in *; [|lia].
      assert (edges_between a' b' s = []) as ->; [|simpl; lia].
      unfold joins in Hj. simpl in Hj. destruct Hj as [[<- <-]|[<- <-]].
      * by apply edges_between_nil.
      * rewrite edges_between_sym. by apply edges_between_nil.
    + unfold jvalues. rewrite createFriendRequest_friends by done.
      rewrite fmap_app. apply Forall_app. split; [done|].
      by apply Forall_singleton.
  - assert (∀ i now, op ≠ OCreateFriendRequest i now) as Hop
      by (intros i now ->; by apply (Hc i now)).
    split; [by apply exec_wf|].
    destruct (exec_friends_shape s op Hwf Hop) as [Hsub|(id & st & Hmap)].
    + split.
      * intros a' b'. etransitivity; [|apply (Hone a' b')]. apply sublist_length.
        unfold edges_between. by apply filter_sublist_mono.
      * apply Forall_forall. intros f Hf. rewrite Forall_forall in Hself.
        apply Hself. by eapply elem_of_sublist.
    + split.
      * intros a' b'. unfold edges_between. rewrite Hmap.
        rewrite (filter_fmap_iff _ _ (joins a' b')).
        { rewrite length_fmap. apply Hone. }
        intros x. by destruct (decide (friend_id x = id)).
      * rewrite Hmap. apply Forall_fmap. eapply Forall_impl; [exact Hself|].
        intros x Hx. simpl. by destruct (decide (friend_id x = id)).
Qed.

Lemma friend_edges_unique_through_route_witness :
  Forall (λ c, ∀ i now, c ≠ CStore (OCreateFriendRequest i now))
    [CStore (OCreateUser demo_alice 10); CStore (OCreateUser demo_bob 20);
     CFriendRequest 1 2 30; CStore (ORejectFriendRequest 1); CFriendRequest 2 1 40] ∧
  (length (edges_between 1 2
             (foldl call empty_store
                [CStore (OCreateUser demo_alice 10); CStore (OCreateUser demo_bob 20);
                 CFriendRequest 1 2 30; CStore (ORejectFriendRequest 1);
                 CFriendRequest 2 1 40])) ≤ 1)%nat.
Proof.
  assert (Forall (λ c, ∀ i now, c ≠ CStore (OCreateFriendRequest i now))
            [CStore (OCreateUser demo_alice 10); CStore (OCreateUser demo_bob 20);
             CFriendRequest 1 2 30; CStore (ORejectFriendRequest 1);
             CFriendRequest 2 1 40]) as Hcalls
    by (repeat constructor; intros; discriminate).
  split; [exact Hcalls|].
  apply (friend_edges_unique_through_route _ 1 2 Hcalls).
Defined.

(** ** Posts and users behind the routes *)

(** X23.  The routes that delete and edit a post act for the author only:
    they answer 404 for a post that is not stored and 403, without a change,
    for a post of somebody else, and whatever they answer, every post written
    by another user is stored afterwards as it was. *)
Theorem post_routes_author_only (userId postId : Z) (content : string) (s : Store) :
  let del := route_delete_post userId postId s in
  let upd := route_update_post userId postId content s in
  (getPost postId s = None → del = (404, s) ∧ upd = (404, None, s)) ∧
  (∀ post, getPost postId s = Some post → post_userId post ≠ userId →
           del = (403, s) ∧ upd = (403, None, s)) ∧
  (∀ post, getPost postId s = Some post → post_userId post = userId →
           del.1 = 200 ∧ getPost postId del.2 = None ∧
           upd.1.1 = 200 ∧ post_content <$> getPost postId upd.2 = Some content) ∧
  (∀ q post, getPost q s = Some post → post_userId post ≠ userId →
             getPost q del.2 = Some post ∧ getPost q upd.2 = Some post).
Proof.
  intros del upd. unfold del, upd, route_delete_post, route_update_post.
  destruct (getPost postId s) as [mine|] eqn:Hget.
  2:{ by split_and!. }
  destruct (decide (post_userId mine ≠ userId)) as [Hne|Heq].
  { split_and!; try done; intros; by simplify_eq. }
  apply dec_stable in Heq.
  assert (deletePost postId s =
          (true, (deletePost postId s).2) ∧
          posts (deletePost postId s).2 = jdelete postId (posts s)) as [Hdel Hposts].
  { unfold deletePost. by rewrite Hget. }
  assert (updatePost postId content s =
          (Some (mkPost (post_id mine) (post_userId mine) content (post_media mine)
                   (post_createdAt mine)),
           with_posts
             (jset postId
                (mkPost (post_id mine) (post_userId mine) content (post_media mine)
                   (post_createdAt mine)) (posts s)) s)) as Hupd.
  { unfold updatePost. by rewrite Hget. }
  rewrite Hupd. cbn [fst snd]. split_and!.
  - done.
  - intros post ? ?. by simplify_eq.
  - intros post _ _. split_and!; try done.
    + unfold getPost. rewrite Hposts. apply jget_delete_eq.
    + unfold getPost. cbn [posts with_posts]. by rewrite jget_set_eq.
  - intros q post Hq Hauthor.
    assert (postId ≠ q) as Hneq by (intros ->; congruence).
    split.
    + unfold getPost. rewrite Hposts. by rewrite jget_delete_ne.
    + unfold getPost. cbn [posts with_posts]. by rewrite jget_set_ne.
Qed.

(** X24.  The admin routes that delete and ban a user refuse user 1, the
    administrator, with 400, and for every other id leave the record of user
    1 as it is; they answer 404 for an id that is not stored.  The record the
    ban route answers with carries no password and has the flag flipped. *)
Theorem admin_routes_spare_admin (userId : Z) (s : Store) :
  store_wf s →
  let del := route_admin_delete_user userId s in
  let ban := route_admin_ban userId s in
  (userId = 1 → del = (400, s) ∧ ban = (400, None, s)) ∧
  getUser 1 del.2 = getUser 1 s ∧ getUser 1 ban.2 = getUser 1 s ∧
  (userId ≠ 1 → getUser userId s = None → del = (404, s) ∧ ban = (404, None, s)) ∧
  (∀ user, userId ≠ 1 → getUser userId s = Some user →
     del.1 = 200 ∧ getUser userId del.2 = None ∧
     ∃ banned, ban.1 = (200, Some banned) ∧
               user_password banned = None ∧
               user_isBanned banned = negb (user_isBanned user) ∧
               user_isBanned <$> getUser userId ban.2 = Some (negb (user_isBanned user))).
Proof.
  intros Hwf del ban. unfold del, ban, route_admin_delete_user, route_admin_ban.
  destruct (decide (userId = 1)) as [->|Hne].
  { split_and!; try done. }
  destruct (getUser userId s) as [user|] eqn:Hget.
  - rewrite (deleteUser_present _ _ _ Hwf Hget).
    unfold toggleUserBanStatus. rewrite Hget. cbn [fst snd].
    split_and!; try done.
    + unfold getUser. cbn [users with_users with_posts with_likes with_comments
        with_friends]. by rewrite jget_delete_ne.
    + unfold getUser. cbn [users with_users]. by rewrite jget_set_ne.
    + intros user' _ [= <-]. split_and!; try done.
      * unfold getUser. cbn [users with_users with_posts with_likes with_comments
          with_friends]. apply jget_delete_eq.
      * eexists. split; [reflexivity|]. split_and!; try done.
        unfold getUser. cbn [users with_users]. by rewrite jget_set_eq.
  - unfold deleteUser, toggleUserBanStatus. rewrite Hget. cbn [fst snd].
    split_and!; try done.
Qed.

Lemma admin_routes_spare_admin_witness :
  store_wf busy_store ∧
  getUser 1 (route_admin_delete_user 2 busy_store).2 = getUser 1 busy_store.
Proof.
  assert (store_wf busy_store) as Hwf by (apply (bool_decide_unpack _); by vm_compute).
  split; [exact Hwf|].
  destruct (admin_routes_spare_admin 2 busy_store Hwf) as (_ & Hdel & _).
  exact Hdel.
Defined.

Lemma updateUser_present id updates user s :
  getUser id s = Some user →
  ∃ user',
    updateUser id updates s = (Some user', with_users (jset id user' (users s)) s) ∧
    user_name user' = default (user_name user) (upd_name updates) ∧
    user_lastNameChange user' = user_lastNameChange user.
Proof.
  intros Hget. unfold updateUser. rewrite Hget. eexists. split; [reflexivity|].
  simpl. split; [|done]. unfold merge_field. by destruct (upd_name updates).
Qed.

(** X25.  The profile route and the 15-day rule.  A request that names a
    new, non-empty name is refused with 400, without a change, while fewer
    than 15 whole days have passed since the recorded name change; otherwise
    the name is stored and the time of the change is recorded with it.  A
    request that does not change the name, or leaves it out, keeps the
    recorded time.  The empty name is not held to the rule: it is stored at
    any time and leaves no record. *)
Theorem route_update_profile_cooldown
    (userId : Z) (body : ProfileBody) (now_check now_set : Z) (s : Store) (cur : User) :
  getUser userId s = Some cur →
  let r := route_update_profile userId body now_check now_set s in
  let renames :=
    ∃ name, pb_name body = Some name ∧ name ≠ EmptyString ∧ name ≠ user_name cur in
  let in_cooldown :=
    ∃ last, user_lastNameChange cur = Some last ∧
            (now_check - last) `div` 86400000 < 15 in
  (renames → in_cooldown → r = (400, None, s)) ∧
  (renames → ¬ in_cooldown →
   ∃ user', r.1 = (200, Some (blank_password user')) ∧
            getUser userId r.2 = Some user' ∧
            pb_name body = Some (user_name user') ∧
            user_lastNameChange user' = Some now_set) ∧
  (¬ renames →
   ∃ user', r.1 = (200, Some (blank_password user')) ∧
            getUser userId r.2 = Some user' ∧
            user_name user' = default (user_name cur) (pb_name body) ∧
            user_lastNameChange user' = user_lastNameChange cur).
Proof.
  intros Hget r renames in_cooldown. unfold r, route_update_profile. rewrite Hget.
  cbv zeta.
  assert (∀ lnc s0 user0, getUser userId s0 = Some user0 →
            ∃ user',
              (let (updatedUser, s1) := updateUser userId (profile_updates body lnc) s0 in
               match updatedUser with
               | Some updatedUser => (200, Some (blank_password updatedUser), s1)
               | None => (404, None, s1)
               end) =
              (200, Some (blank_password user'),
               with_users (jset userId user' (users s0)) s0) ∧
              user_name user' = default (user_name user0) (pb_name body) ∧
              user_lastNameChange user' = user_lastNameChange user0) as Hfinish.
  { intros lnc s0 user0 Hget0.
    destruct (updateUser_present userId (profile_updates body lnc) user0 s0 Hget0)
      as (user' & -> & Hname & Hlnc).
    exists user'. by split_and!. }
  assert (bool_decide ((now_check - default 0 (user_lastNameChange cur))
                         `div` (1000 * 60 * 60 * 24) < 15) =
          bool_decide ((now_check - default 0 (user_lastNameChange cur))
                         `div` 86400000 < 15)) as Hday by done.
  split_and!.
  - intros (name & Hname & Hne & Hdiff) (last & Hlast & Hdays).
    rewrite Hname, Hlast. rewrite bool_decide_eq_true_2 by done.
    rewrite Hlast in Hday. simpl in Hday. rewrite Hday.
    by rewrite bool_decide_eq_true_2.
  - intros (name & Hname & Hne & Hdiff) Hout.
    rewrite Hname. rewrite bool_decide_eq_true_2 by done.
    assert (match user_lastNameChange cur with
            | Some last => bool_decide ((now_check - last) `div` (1000 * 60 * 60 * 24) < 15)
            | None => false
            end = false) as ->.
    { destruct (user_lastNameChange cur) as [last|] eqn:Hlast; [|done].
      simpl in Hday. rewrite Hday. apply bool_decide_eq_false_2.
      intros Hdays. apply Hout. by exists last. }
    edestruct (Hfinish (Some now_set) (stamp_name_change userId now_set cur s))
      as (user' & -> & Hn & Hl).
    { unfold getUser, stamp_name_change. cbn [users with_users]. apply jget_set_eq. }
    exists user'. cbn [fst snd]. split_and!.
    + done.
    + unfold getUser. cbn [users with_users]. apply jget_set_eq.
    + rewrite Hn, Hname. done.
    + by rewrite Hl.
  - intros Hno.
    assert (match pb_name body with
            | Some name => bool_decide (name ≠ EmptyString ∧ name ≠ user_name cur)
            | None => false
            end = false) as ->.
    { destruct (pb_name body) as [name|] eqn:Hname; [|done].
      apply bool_decide_eq_false_2. intros [? ?]. apply Hno. by exists name. }
    destruct (Hfinish (user_lastNameChange cur) s cur Hget) as (user' & -> & Hn & Hl).
    exists user'. cbn [fst snd]. split_and!; try done.
    unfold getUser. cbn [users with_users]. apply jget_set_eq.
Qed.

Lemma route_update_profile_cooldown_witness :
  getUser 1 renamed_store =
    Some (mkUser 1 "alice" (Some "secret") "Alicia" None None None None None None None None
            10 (Some 1000) false) ∧
  route_update_profile 1 (rename_body "Alice") (1000 + 15 * 86400000 - 1) 5000 renamed_store =
  (400, None, renamed_store).
Proof.
  assert (getUser 1 renamed_store =
          Some (mkUser 1 "alice" (Some "secret") "Alicia" None None None None None None None
                  None 10 (Some 1000) false)) as Hget by reflexivity.
  split; [exact Hget|].
  destruct (route_update_profile_cooldown 1 (rename_body "Alice")
              (1000 + 15 * 86400000 - 1) 5000 renamed_store _ Hget) as (Hrefused & _).
  apply Hrefused.
  - exists "Alice". by split_and!.
  - exists 1000. split; [reflexivity|]. by vm_compute.
Defined.

(** ** Invariants of the records *)

(** X26.  In every store that calls can produce, a lookup by id returns a
    record that carries this id, every stored id is below the counter of its
    collection, and every collection is iterated by increasing id. *)
Theorem reachable_records_consistent (s : Store) :
  reachable s →
  (∀ id user, getUser id s = Some user → user_id user = id ∧ id < currentUserId s) ∧
  (∀ id post, getPost id s = Some post → post_id post = id ∧ id < currentPostId s) ∧
  (∀ id like, jget id (likes s) = Some like → like_id like = id ∧ id < currentLikeId s) ∧
  (∀ id comment, jget id (comments s) = Some comment →
                 comment_id comment = id ∧ id < currentCommentId s) ∧
  (∀ id friend, jget id (friends s) = Some friend →
                friend_id friend = id ∧ id < currentFriendId s) ∧
  (∀ id story, jget id (stories s) = Some story →
               story_id story = id ∧ id < currentStoryId s) ∧
  StronglySorted Z.lt (user_id <$> jvalues (users s)) ∧
  StronglySorted Z.lt (post_id <$> jvalues (posts s)) ∧
  StronglySorted Z.lt (like_id <$> jvalues (likes s)) ∧
  StronglySorted Z.lt (comment_id <$> jvalues (comments s)) ∧
  StronglySorted Z.lt (friend_id <$> jvalues (friends s)) ∧
  StronglySorted Z.lt (story_id <$> jvalues (stories s)).
Proof.
  intros Hwf%reachable_wf. wf_open.
  split_and!;
    try (intros id x Hx; by eapply map_wf_get);
    (erewrite map_wf_ids_keys; [|done]);
    match goal with H : map_wf _ _ ?m |- StronglySorted _ (jkeys ?m) => by destruct H end.
Qed.

Lemma reachable_records_consistent_witness :
  reachable busy_store ∧ StronglySorted Z.lt (like_id <$> jvalues (likes busy_store)).
Proof.
  assert (reachable busy_store) as Hr by (by eexists).
  split; [exact Hr|].
  destruct (reachable_records_consistent busy_store Hr)
    as (_ & _ & _ & _ & _ & _ & _ & _ & Hlikes & _).
  exact Hlikes.
Defined.

(** ** A new post in the feeds *)

Lemma createPost_posts i now s :
  store_wf s →
  jvalues (posts (createPost i now s).2) = jvalues (posts s) ++ [(createPost i now s).1].
Proof.
  intros Hwf. wf_open. unfold jvalues. simpl.
  rewrite jset_fresh by by eapply map_wf_fresh. by rewrite fmap_app.
Qed.

(** X27.  A post created with a timestamp later than that of every stored
    post is the first entry of its author's feed and of the feed of every
    friend of the author. *)
Theorem createPost_heads_feed (i : InsertPost) (now viewer : Z) (s : Store) :
  store_wf s →
  Forall (λ p, post_createdAt p < now) (jvalues (posts s)) →
  viewer = ip_userId i ∨ are_friends s viewer (ip_userId i) →
  head (pwa_post <$> getPostsForFeed viewer (createPost i now s).2) =
  Some (createPost i now s).1.
Proof.
  intros Hwf Hold Hsees.
  set (post := (createPost i now s).1). set (s' := (createPost i now s).2).
  pose proof (createPost_wf i now s Hwf) as Hwf'. fold s' in Hwf'.
  rewrite getPostsForFeed_posts.
  set (visible := filter _ (jvalues (posts s'))).
  assert (post ∈ visible) as Hin.
  { unfold visible. apply list_elem_of_filter. split.
    - unfold post. simpl. destruct Hsees as [->|Hf]; [by left|by right].
    - unfold s'. rewrite createPost_posts by done. apply elem_of_app. right.
      apply list_elem_of_here. }
  assert (∀ p, p ∈ visible → p = post ∨ post_createdAt p < now) as Hothers.
  { intros p [_ Hp]%list_elem_of_filter. unfold s' in Hp.
    rewrite createPost_posts in Hp by done.
    apply elem_of_app in Hp as [Hp|Hp%list_elem_of_singleton]; [|by left].
    right. rewrite Forall_forall in Hold. by apply Hold. }
  assert (StronglySorted
            (λ a b, post_createdAt b < post_createdAt a ∨
                    (post_createdAt a = post_createdAt b ∧ post_id a < post_id b))
            (js_sort (λ a b, post_createdAt b - post_createdAt a) visible)) as Hsorted.
  { apply (js_sort_newest_first post_createdAt post_id). unfold visible.
    apply StronglySorted_filter. destruct Hwf' as (_ & Hwp' & _).
    by eapply map_wf_values_sorted. }
  assert (post ∈ js_sort (λ a b, post_createdAt b - post_createdAt a) visible) as Hin'
    by by rewrite elem_of_js_sort.
  destruct (js_sort _ visible) as [|h rest] eqn:Hsort; [by apply elem_of_nil in Hin'|].
  simpl. f_equal.
  apply elem_of_cons in Hin' as [->|Hrest]; [done|].
  apply StronglySorted_cons in Hsorted as [Hh _].
  rewrite Forall_forall in Hh. specialize (Hh _ Hrest).
  assert (h ∈ visible) as Hhv.
  { rewrite <- (elem_of_js_sort (λ a b, post_createdAt b - post_createdAt a)).
    rewrite Hsort. apply list_elem_of_here. }
  destruct (Hothers h Hhv) as [->|Hlt]; [done|].
  unfold post in Hh. simpl in Hh. lia.
Qed.

Lemma createPost_heads_feed_witness :
  store_wf busy_store ∧
  head (pwa_post <$> getPostsForFeed 2 (createPost (mkInsertPost 1 "new" None) 500
                                           busy_store).2) =
  Some (createPost (mkInsertPost 1 "new" None) 500 busy_store).1.
Proof.
  assert (store_wf busy_store) as Hwf by (apply (bool_decide_unpack _); by vm_compute).
  split; [exact Hwf|].
  apply (createPost_heads_feed (mkInsertPost 1 "new" None) 500 2 busy_store Hwf).
  - apply (bool_decide_unpack _). by vm_compute.
  - right. apply (bool_decide_unpack _). by vm_compute.
Defined.
